(** * StarCluster [awsutils.py]: the EC2/S3 helpers behind image deletion

    A shallow embedding of [EasyAWS], [EasyEC2] and [EasyS3] from
    [starcluster/awsutils.py], restricted to the methods the image
    deletion workflow uses: the lazily created connection, the image
    lookups, the listing of an image's files in S3, [remove_image_files]
    and [remove_image].

    The program state holds the Python objects ([EasyEC2] with its [s3]
    sub-object) and the remote cloud (EC2 images and S3 buckets).  Every
    remote call, every log line and every [print] is appended to a
    chronological trace.  Python exceptions are an explicit outcome, and
    the unbounded recursion of [remove_image_files] is cut by a fuel
    argument: [OutOfFuel] means the recursion had not finished at the given
    depth. *)

From Stdlib Require Import String Ascii List Bool Arith Lia.
Import ListNotations.
Open Scope string_scope.

(** ** Python string helpers *)

(** [s.split(sep)[0]]: the text before the first occurrence of [sep]
    (the whole string when [sep] does not occur). *)
Fixpoint py_split0 (sep s : string) : string :=
  if prefix sep s then ""
  else match s with
       | EmptyString => ""
       | String c s' => String c (py_split0 sep s')
       end.

(** [os.path.basename s]: the text after the last ['/']. *)
Fixpoint basename_from (acc s : string) : string :=
  match s with
  | EmptyString => acc
  | String c s' =>
      if Ascii.eqb c "/"%char then basename_from "" s'
      else basename_from (acc ++ String c "") s'
  end.

Definition basename (s : string) : string := basename_from "" s.

(** Python [str.startswith]. *)
Definition startswith (s p : string) : bool := prefix p s.

(** ** Remote resources *)

(** A boto [Image]: only the fields the module reads. *)
Record Image := mkImage {
  id : string;
  location : string;
  owner : string
}.

(** A boto S3 [Key]: the bucket it lives in and its name. *)
Record StorageObject := mkObj {
  obj_bucket : string;
  obj_key : string
}.

(** [str(key)] of a boto [Key]. *)
Definition key_repr (o : StorageObject) : string :=
  "<Key: " ++ obj_bucket o ++ "," ++ obj_key o ++ ">".

(** The remote side: EC2's image registry and S3's buckets.  [undeletable]
    lists the objects on which a DELETE request has no visible effect: a
    later listing still returns them (a permanently failing store). *)
Record Cloud := mkCloud {
  images : list Image;
  buckets : list (string * list string);
  undeletable : list (string * string);
  account : string
}.

Inductive Service := EC2 | S3.

Inductive ImageFilter :=
| ByIds (ids : list string)
| ByOwners (owners : list string).

Inductive Level := Debug | Info | Error.

(** Observable actions, in the order they happen. *)
Inductive Event :=
| EAuth (svc : Service) (handle : nat)          (* connection_authenticator(...) *)
| EDescribeImages (f : ImageFilter)             (* conn.get_all_images *)
| EGetBucket (name : string)                    (* s3 conn.get_bucket *)
| EListBucket (name prefix : string)            (* bucket.list(prefix=...) *)
| EDeleteKey (name key : string)                (* key.delete() *)
| EDeregister (ami : string)                    (* conn.deregister_image *)
| ELog (lvl : Level) (msg : string)
| EPrint (msg : string).

(** Python exceptions that the modelled methods can raise. *)
Inductive exn :=
| TypeError (msg : string)
| NameError (name : string)
| AttributeError (msg : string)
| S3ResponseError (bucket : string).

(** ** Objects *)

(** The fields of an [EasyAWS] object; the authenticator is fixed by the
    service ([boto.connect_ec2] or [boto.connect_s3]). *)
Record EasyAWS := mkEasyAWS {
  aws_access_key : string;
  aws_secret_access_key : string;
  _conn : option nat
}.

Record State := mkState {
  ec2 : EasyAWS;            (* the EasyEC2 object's EasyAWS part *)
  cache : bool;
  _images : option (list Image);
  s3 : EasyAWS;             (* self.s3, an EasyS3 *)
  cloud : Cloud;
  auth_calls : nat;         (* authenticator invocations so far *)
  trace : list Event
}.

(** [EasyEC2.__init__]: sets fields, builds [self.s3]; no remote call. *)
Definition EasyEC2_init (key secret : string) (cache : bool) (c : Cloud)
    (auth : nat) (tr : list Event) : State :=
  mkState (mkEasyAWS key secret None) cache None (mkEasyAWS key secret None)
          c auth tr.

(** ** The state, exception and fuel monad *)

Inductive result (A : Type) :=
| Ret (a : A) (s : State)
| Exc (e : exn) (s : State)
| OutOfFuel (s : State).
Arguments Ret {A}. Arguments Exc {A}. Arguments OutOfFuel {A}.

Definition M (A : Type) := State -> result A.

Definition ret {A} (a : A) : M A := fun s => Ret a s.
Definition raise {A} (e : exn) : M A := fun s => Exc e s.
Definition bind {A B} (m : M A) (k : A -> M B) : M B := fun s =>
  match m s with
  | Ret a s' => k a s'
  | Exc e s' => Exc e s'
  | OutOfFuel s' => OutOfFuel s'
  end.

Notation "x <- m ;; k" := (bind m (fun x => k))
  (at level 61, m at next level, right associativity).
Notation "m ;;; k" := (bind m (fun _ => k))
  (at level 61, right associativity).

Definition gets {A} (f : State -> A) : M A := fun s => Ret (f s) s.

Definition emit (e : Event) : M unit := fun s =>
  Ret tt (mkState (ec2 s) (cache s) (_images s) (s3 s) (cloud s)
                  (auth_calls s) (trace s ++ [e])).

Definition set_cloud (c : Cloud) : M unit := fun s =>
  Ret tt (mkState (ec2 s) (cache s) (_images s) (s3 s) c
                  (auth_calls s) (trace s)).

Definition set_images (v : option (list Image)) : M unit := fun s =>
  Ret tt (mkState (ec2 s) (cache s) v (s3 s) (cloud s)
                  (auth_calls s) (trace s)).

Definition log (l : Level) (m : string) : M unit := emit (ELog l m).

Definition state_of {A} (r : result A) : State :=
  match r with Ret _ s | Exc _ s | OutOfFuel s => s end.

Fixpoint for_each {A} (f : A -> M unit) (l : list A) : M unit :=
  match l with
  | [] => ret tt
  | x :: l' => f x ;;; for_each f l'
  end.

(** ** [EasyAWS.conn]: the lazily created connection *)

Definition obj_of (svc : Service) (s : State) : EasyAWS :=
  match svc with EC2 => ec2 s | S3 => s3 s end.

Definition set_obj (svc : Service) (o : EasyAWS) : M unit := fun s =>
  match svc with
  | EC2 => Ret tt (mkState o (cache s) (_images s) (s3 s) (cloud s)
                           (auth_calls s) (trace s))
  | S3 => Ret tt (mkState (ec2 s) (cache s) (_images s) o (cloud s)
                          (auth_calls s) (trace s))
  end.

(** [connection_authenticator(key, secret)], i.e. [boto.connect_ec2] or
    [boto.connect_s3]: builds a fresh connection object (no network
    round trip) and never returns [None]. *)
Definition authenticate (svc : Service) (key secret : string) : M nat := fun s =>
  let h := auth_calls s in
  Ret h (mkState (ec2 s) (cache s) (_images s) (s3 s) (cloud s)
                 (S h) (trace s ++ [EAuth svc h])).

Definition conn (svc : Service) : M nat :=
  o <- gets (obj_of svc) ;;
  match _conn o with
  | Some h => ret h
  | None =>
      log Debug "creating self._conn" ;;;
      h <- authenticate svc (aws_access_key o) (aws_secret_access_key o) ;;
      set_obj svc (mkEasyAWS (aws_access_key o) (aws_secret_access_key o) (Some h)) ;;;
      ret h
  end.

(** ** Remote calls *)

Definition image_matches (f : ImageFilter) (acct : string) (i : Image) : bool :=
  match f with
  | ByIds ids => existsb (String.eqb (id i)) ids
  | ByOwners os => existsb (fun o => String.eqb o "self" && String.eqb (owner i) acct) os
  end.

(** [conn.get_all_images(...)]. *)
Definition get_all_images (f : ImageFilter) : M (list Image) :=
  _ <- conn EC2 ;;
  emit (EDescribeImages f) ;;;
  c <- gets cloud ;;
  ret (filter (image_matches f (account c)) (images c)).

(** [conn.deregister_image(ami)]. *)
Definition deregister_image (ami : string) : M unit :=
  _ <- conn EC2 ;;
  emit (EDeregister ami) ;;;
  c <- gets cloud ;;
  set_cloud (mkCloud (filter (fun i => negb (String.eqb (id i) ami)) (images c))
                     (buckets c) (undeletable c) (account c)).

Fixpoint lookup_bucket (name : string) (bs : list (string * list string))
    : option (list string) :=
  match bs with
  | [] => None
  | (n, ks) :: bs' => if String.eqb n name then Some ks else lookup_bucket name bs'
  end.

(** [EasyS3.get_bucket]: boto's [get_bucket] checks the bucket and raises
    [S3ResponseError] (404) when it does not exist. *)
Definition get_bucket (bucketname : string) : M string :=
  _ <- conn S3 ;;
  emit (EGetBucket bucketname) ;;;
  c <- gets cloud ;;
  match lookup_bucket bucketname (buckets c) with
  | Some _ => ret bucketname
  | None => raise (S3ResponseError bucketname)
  end.

(** [bucket.list(prefix=p)], materialised by the list comprehension. *)
Definition bucket_list (bucket p : string) : M (list StorageObject) :=
  emit (EListBucket bucket p) ;;;
  c <- gets cloud ;;
  let ks := match lookup_bucket bucket (buckets c) with
            | Some ks => ks | None => [] end in
  ret (map (mkObj bucket) (filter (prefix p) ks)).

Definition remove_key (b k : string) (bs : list (string * list string))
    : list (string * list string) :=
  map (fun '(n, ks) =>
         if String.eqb n b then (n, filter (fun x => negb (String.eqb x k)) ks)
         else (n, ks)) bs.

Definition is_undeletable (b k : string) (c : Cloud) : bool :=
  existsb (fun '(b', k') => String.eqb b' b && String.eqb k' k) (undeletable c).

(** [key.delete()]. *)
Definition key_delete (o : StorageObject) : M unit :=
  emit (EDeleteKey (obj_bucket o) (obj_key o)) ;;;
  c <- gets cloud ;;
  if is_undeletable (obj_bucket o) (obj_key o) c then ret tt
  else set_cloud (mkCloud (images c) (remove_key (obj_bucket o) (obj_key o) (buckets c))
                          (undeletable c) (account c)).

(** ** [EasyEC2] methods *)

(** [registered_images] property. *)
Definition registered_images : M (list Image) :=
  let refresh :=
    imgs <- get_all_images (ByOwners ["self"]) ;;
    set_images (Some imgs) ;;;
    ret imgs in
  c <- gets cache ;;
  im <- gets _images ;;
  if negb c then refresh
  else match im with
       | None => refresh
       | Some imgs => ret imgs
       end.

Definition get_registered_image (image_id : string) : M (option Image) :=
  if negb (startswith image_id "ami") || negb (Nat.eqb (String.length image_id) 12) then
    raise (TypeError ("invalid AMI name/id requested: " ++ image_id))
  else
    imgs <- registered_images ;;
    ret (find (fun i => String.eqb (id i) image_id) imgs).

(** [get_image]: [conn.get_all_images(image_ids=[image_id])[0]], with
    [IndexError] turned into [None]. *)
Definition get_image (image_id : string) : M (option Image) :=
  imgs <- get_all_images (ByIds [image_id]) ;;
  ret (hd_error imgs).

Definition manifest_suffix : string := ".manifest.xml".

(** [image.location.split('/')[0]]. *)
Definition bucket_name (img : Image) : string := py_split0 "/" (location img).

(** [os.path.basename(image.location).split('.manifest.xml')[0]]. *)
Definition image_prefix (img : Image) : string :=
  py_split0 manifest_suffix (basename (location img)).

Definition get_image_files (image_id : string) : M (list StorageObject) :=
  image <- get_image image_id ;;
  match image with
  | None => raise (AttributeError "'NoneType' object has no attribute 'location'")
  | Some img =>
      b <- get_bucket (bucket_name img) ;;
      bucket_list b (image_prefix img)
  end.

(** The body of the [for file in files] loop of [remove_image_files]. *)
Definition remove_file (pretend : bool) (file : StorageObject) : M unit :=
  if pretend then emit (EPrint (key_repr file))
  else (emit (EPrint ("removing file " ++ key_repr file)) ;;;
        key_delete file).

(** [remove_image_files]; [fuel] bounds the depth of its self-recursion.
    [bucket = os.path.dirname(image.location)] is computed and unused by
    the source, so it is left out. *)
Fixpoint remove_image_files (fuel : nat) (image_name : string) (pretend : bool)
    : M unit :=
  match fuel with
  | 0 => fun s => OutOfFuel s
  | S fuel' =>
      image <- get_image image_name ;;
      match image with
      | None => log Error ("cannot remove AMI " ++ image_name)
      | Some _ =>
          files <- get_image_files image_name ;;
          for_each (remove_file pretend) files ;;;
          (* recursive double check *)
          files' <- get_image_files image_name ;;
          if negb (Nat.eqb (List.length files') 0) then
            (if pretend then
               log Info "Not all files deleted, would recurse...exiting"
             else
               (log Info "Not all files deleted, recursing..." ;;;
                remove_image_files fuel' image_name pretend))
          else ret tt
      end
  end.

(** [remove_image] ([@print_timing] only logs the elapsed time on a normal
    return and is left out).  Under [pretend] the source formats its log
    line with the name [imageid], which is bound nowhere: Python raises
    [NameError] while evaluating the argument. *)
Definition remove_image (fuel : nat) (image_name : string) (pretend : bool)
    : M unit :=
  image <- get_image image_name ;;
  match image with
  | None => log Error ("AMI " ++ image_name ++ " does not exist")
  | Some img =>
      (if pretend then raise (NameError "imageid")
       else log Info ("Removing AMI: " ++ image_name)) ;;;
      (* first remove image files *)
      log Info "Removing image files..." ;;;
      remove_image_files fuel image_name pretend ;;;
      (* then deregister ami *)
      let ami := id img in
      if pretend then log Info ("Would run deregister_image for ami: " ++ ami ++ ")")
      else (log Info ("Deregistering ami: " ++ ami) ;;;
            deregister_image ami)
  end.

(** ** Trace predicates *)

Open Scope list_scope.

Definition not_mutating (e : Event) : Prop :=
  match e with EDeleteKey _ _ | EDeregister _ => False | _ => True end.

Definition no_deregister (e : Event) : Prop :=
  match e with EDeregister _ => False | _ => True end.

Definition no_delete (e : Event) : Prop :=
  match e with EDeleteKey _ _ => False | _ => True end.

Definition is_delete (e : Event) : bool :=
  match e with EDeleteKey _ _ => true | _ => false end.

Definition count_deletes (ev : list Event) : nat := List.length (filter is_delete ev).

(** [m] only appends events satisfying [P] to the trace, whatever its
    outcome. *)
Definition Emits {A} (P : Event -> Prop) (m : M A) : Prop :=
  forall s, exists ev, trace (state_of (m s)) = trace s ++ ev /\ Forall P ev.

(** [m] appends events satisfying [P] followed by events satisfying [Q]. *)
Definition EmitsSeq {A} (P Q : Event -> Prop) (m : M A) : Prop :=
  forall s, exists ev1 ev2,
    trace (state_of (m s)) = trace s ++ ev1 ++ ev2 /\ Forall P ev1 /\ Forall Q ev2.

(** Every delete of [ev] comes before every deregistration of [ev]. *)
Definition deletes_before_deregister (ev : list Event) : Prop :=
  forall i j b k ami,
    nth_error ev i = Some (EDeleteKey b k) ->
    nth_error ev j = Some (EDeregister ami) -> i < j.

(** ** Auxiliary definitions *)

Definition images_with_id (image_id : string) (c : Cloud) : list Image :=
  filter (fun i => String.eqb (id i) image_id) (images c).

(** [p in s] for strings. *)
Fixpoint contains (p s : string) : bool :=
  prefix p s || match s with
                | EmptyString => false
                | String _ s' => contains p s'
                end.


(** A client reading the [conn] property [k] times in a row. *)
Fixpoint access_conn (svc : Service) (k : nat) : M (list nat) :=
  match k with
  | 0 => ret []
  | S k' => h <- conn svc ;; hs <- access_conn svc k' ;; ret (h :: hs)
  end.

(** The image is registered, its bucket holds the object [k] under the
    image's prefix, and deleting [k] has no visible effect. *)
Definition sticky_store (image_name : string) (img : Image) (k : string) (c : Cloud)
    : Prop :=
  hd_error (images_with_id image_name c) = Some img /\
  (exists ks, lookup_bucket (bucket_name img) (buckets c) = Some ks /\ In k ks) /\
  prefix (image_prefix img) k = true /\
  is_undeletable (bucket_name img) k c = true.

(** ** Sample clouds *)

Definition demo_image : Image := mkImage "ami-1a2b3c4d" "mybucket/img.manifest.xml" "me".

(** One image with two files under its prefix and one unrelated object. *)
Definition demo_cloud : Cloud :=
  mkCloud [demo_image] [("mybucket", ["img.part.0"; "img.part.1"; "other"])] [] "me".

(** The same image whose bucket holds nothing under its prefix. *)
Definition empty_cloud : Cloud :=
  mkCloud [demo_image] [("mybucket", ["other"])] [] "me".

(** The same image whose second file cannot be deleted. *)
Definition sticky_cloud : Cloud :=
  mkCloud [demo_image] [("mybucket", ["img.part.0"; "img.part.1"])]
          [("mybucket", "img.part.1")] "me".

Definition demo_state (c : Cloud) : State := EasyEC2_init "AKID" "SECRET" false c 0 [].



(** ** More [EasyEC2] and [EasyS3] methods *)

(** Events that neither mutate the cloud nor print. *)
Definition quiet (e : Event) : Prop :=
  match e with EDeleteKey _ _ | EDeregister _ | EPrint _ => False | _ => True end.

(** [m] leaves the part [f] of the cloud unchanged, whatever its outcome. *)
Definition Keeps {A T} (f : Cloud -> T) (m : M A) : Prop :=
  forall s, f (cloud (state_of (m s))) = f (cloud s).

(** [EasyEC2.list_image_files(image_id)].  The class body defines
    [list_image_files] twice; this second definition replaces the first
    one (which took [image_name, bucket=None]) when the class is built. *)
Definition list_image_files (image_id : string) : M unit :=
  files <- get_image_files image_id ;;
  for_each (fun file => emit (EPrint (obj_key file))) files.

(** [EasyS3.list_bucket]: [bucket.list()] lists with the empty prefix. *)
Definition list_bucket (bucketname : string) : M unit :=
  bucket <- get_bucket bucketname ;;
  files <- bucket_list bucket "" ;;
  for_each (fun file => emit (EPrint (obj_key file))) files.

(** [s.split(c)] for a one-character separator [c]. *)
Fixpoint py_split_char_from (c : ascii) (acc s : string) : list string :=
  match s with
  | EmptyString => [acc]
  | String x s' =>
      if Ascii.eqb x c then acc :: py_split_char_from c "" s'
      else py_split_char_from c (acc ++ String x "")%string s'
  end.

Definition py_split_char (c : ascii) (s : string) : list string :=
  py_split_char_from c "" s.

(** [EasyEC2.get_image_name]:
    [img.location.split('/')[1].split('.manifest.xml')[0]]; [None] is the
    [IndexError] raised by [[1]] when the location has no ['/']. *)
Definition get_image_name (img : Image) : option string :=
  match nth_error (py_split_char "/"%char (location img)) 1 with
  | Some part => Some (py_split0 manifest_suffix part)
  | None => None
  end.

(** A client of [get_registered_image]: look an image up, deregister it
    through the same object, and look it up again. *)
Definition lookup_deregister_lookup (image_id : string) : M (option Image) :=
  _ <- get_registered_image image_id ;;
  deregister_image image_id ;;;
  get_registered_image image_id.

(** ** Security groups and the remaining [EasyS3] methods

    These calls run over an extended state: the state above, the remote
    security groups, and a second trace recording the security group
    requests.  Exceptions are widened with boto's [EC2ResponseError] and
    Python's [IndexError]. *)

Inductive Rule :=
| RCidr (proto : string) (from_port to_port : nat) (cidr : string)
| RGroup (src_group : string).

Record SecurityGroup := mkGroup {
  sg_name : string;
  sg_description : string;
  sg_rules : list Rule
}.

Inductive XEvent :=
| XDescribeGroups (names : list string)       (* conn.get_all_security_groups *)
| XCreateGroup (name description : string)    (* conn.create_security_group *)
| XAuthorize (group : string) (r : Rule).      (* sg.authorize *)

Inductive xexn :=
| PyExc (e : exn)
| EC2ResponseError (code : string)
| IndexError.

Record XState := mkXState {
  base : State;
  groups : list SecurityGroup;
  xtrace : list XEvent
}.

Inductive xresult (A : Type) :=
| XRet (a : A) (xs : XState)
| XExc (e : xexn) (xs : XState)
| XOutOfFuel (xs : XState).
Arguments XRet {A}. Arguments XExc {A}. Arguments XOutOfFuel {A}.

Definition XM (A : Type) := XState -> xresult A.

Definition xret {A} (a : A) : XM A := fun xs => XRet a xs.
Definition xraise {A} (e : xexn) : XM A := fun xs => XExc e xs.
Definition xbind {A B} (m : XM A) (k : A -> XM B) : XM B := fun xs =>
  match m xs with
  | XRet a xs' => k a xs'
  | XExc e xs' => XExc e xs'
  | XOutOfFuel xs' => XOutOfFuel xs'
  end.

Notation "x <~ m ;; k" := (xbind m (fun x => k))
  (at level 61, m at next level, right associativity).
Notation "m ;;~ k" := (xbind m (fun _ => k))
  (at level 61, right associativity).

(** Run a computation of the base state. *)
Definition lift {A} (m : M A) : XM A := fun xs =>
  match m (base xs) with
  | Ret a s => XRet a (mkXState s (groups xs) (xtrace xs))
  | Exc e s => XExc (PyExc e) (mkXState s (groups xs) (xtrace xs))
  | OutOfFuel s => XOutOfFuel (mkXState s (groups xs) (xtrace xs))
  end.

Definition xemit (e : XEvent) : XM unit := fun xs =>
  XRet tt (mkXState (base xs) (groups xs) (xtrace xs ++ [e])).

Definition xgets {A} (f : XState -> A) : XM A := fun xs => XRet (f xs) xs.

Definition set_groups (gs : list SecurityGroup) : XM unit := fun xs =>
  XRet tt (mkXState (base xs) gs (xtrace xs)).


(** [try: m] [except boto.exception.EC2ResponseError, e: h]. *)
Definition try_ec2 {A} (m : XM A) (h : string -> XM A) : XM A := fun xs =>
  match m xs with
  | XExc (EC2ResponseError code) xs' => h code xs'
  | r => r
  end.

(** [try: m] [except: h] (a bare [except]). *)
Definition try_all {A} (m : XM A) (h : XM A) : XM A := fun xs =>
  match m xs with
  | XExc _ xs' => h xs'
  | r => r
  end.

Definition group_exists (gs : list SecurityGroup) (name : string) : bool :=
  existsb (fun g => String.eqb (sg_name g) name) gs.

(** [conn.get_all_security_groups(groupnames=names)]: EC2 answers with an
    [InvalidGroup.NotFound] error when a name is not a group. *)
Definition get_all_security_groups (names : list string) : XM (list SecurityGroup) :=
  _ <~ lift (conn EC2) ;;
  xemit (XDescribeGroups names) ;;~
  gs <~ xgets groups ;;
  if forallb (group_exists gs) names
  then xret (filter (fun g => existsb (String.eqb (sg_name g)) names) gs)
  else xraise (EC2ResponseError "InvalidGroup.NotFound").

(** [conn.create_security_group(name, description)]: the new group has no
    rule; EC2 refuses a name already in use. *)
Definition create_security_group (name description : string) : XM SecurityGroup :=
  _ <~ lift (conn EC2) ;;
  xemit (XCreateGroup name description) ;;~
  gs <~ xgets groups ;;
  if group_exists gs name then xraise (EC2ResponseError "InvalidGroup.Duplicate")
  else let sg := mkGroup name description [] in
       set_groups (gs ++ [sg]) ;;~
       xret sg.

Definition add_rule (name : string) (r : Rule) (gs : list SecurityGroup)
    : list SecurityGroup :=
  map (fun g => if String.eqb (sg_name g) name
                then mkGroup (sg_name g) (sg_description g) (sg_rules g ++ [r])
                else g) gs.

(** [sg.authorize(...)]: goes through the connection the group object
    holds (not through [self.conn]) and, on success, adds the rule to the
    local object too. *)
Definition authorize (sg : SecurityGroup) (r : Rule) : XM SecurityGroup :=
  xemit (XAuthorize (sg_name sg) r) ;;~
  gs <~ xgets groups ;;
  set_groups (add_rule (sg_name sg) r gs) ;;~
  xret (mkGroup (sg_name sg) (sg_description sg) (sg_rules sg ++ [r])).

(** [EasyEC2.get_or_create_group]. *)
Definition get_or_create_group (name description : string)
    (auth_ssh auth_group_traffic : bool) : XM (option SecurityGroup) :=
  try_ec2
    (gs <~ get_all_security_groups [name] ;;
     match gs with
     | sg :: _ => xret (Some sg)
     | [] => xraise IndexError
     end)
    (fun _ =>
       if String.eqb name "" then xret None
       else
         lift (log Info ("Creating security group " ++ name ++ "...")%string) ;;~
         sg <~ create_security_group name description ;;
         sg <~ (if auth_ssh then authorize sg (RCidr "tcp" 22 22 "0.0.0.0/0")
                else xret sg) ;;
         sg <~ (if auth_group_traffic then authorize sg (RGroup (sg_name sg))
                else xret sg) ;;
         xret (Some sg)).

(** [EasyEC2.get_security_group]. *)
Definition get_security_group (groupname : string) : XM SecurityGroup :=
  gs <~ get_all_security_groups [groupname] ;;
  match gs with
  | sg :: _ => xret sg
  | [] => xraise IndexError
  end.

(** A client calling [get_or_create_group] twice, then
    [get_security_group], on the same name. *)
Definition create_then_get (name description : string) (auth_ssh auth_group_traffic : bool)
    : XM (option SecurityGroup * option SecurityGroup * SecurityGroup) :=
  g1 <~ get_or_create_group name description auth_ssh auth_group_traffic ;;
  g2 <~ get_or_create_group name description auth_ssh auth_group_traffic ;;
  g3 <~ get_security_group name ;;
  xret (g1, g2, g3).



(** [EasyS3.get_bucket_files].  After the [try], the method reads the name
    [bucket_name], which it never binds (its parameter is [bucketname]) and
    which the module does not define: Python raises [NameError] while
    evaluating the argument of [bucket_exists]. *)
Definition get_bucket_files (bucketname : string) : XM (option (list string)) :=
  bucket <~ try_all (b <~ lift (get_bucket bucketname) ;; xret (Some b)) (xret None) ;;
  match bucket with
  | None => xret None
  | Some _ => xraise (PyExc (NameError "bucket_name"))
  end.


(** ** More sample data *)

(** The image of [demo_cloud] without any bucket. *)
Definition no_bucket_cloud : Cloud := mkCloud [demo_image] [] [] "me".

(** A fresh [EasyEC2] object built with [cache=True]. *)
Definition cached_state (c : Cloud) : State := EasyEC2_init "AKID" "SECRET" true c 0 [].

Definition default_group : SecurityGroup := mkGroup "default" "default group" [].

Definition demo_xstate (gs : list SecurityGroup) : XState :=
  mkXState (demo_state demo_cloud) gs [].

(** ** Trace lemmas for the monad *)

Section EmitsRules.

Variable P : Event -> Prop.

Lemma Emits_ret {A} (a : A) : Emits P (ret a).
Proof. intros s; exists []; simpl; rewrite app_nil_r; auto. Qed.

Lemma Emits_raise {A} (e : exn) : Emits P (@raise A e).
Proof. intros s; exists []; simpl; rewrite app_nil_r; auto. Qed.

Lemma Emits_stop {A} : Emits P (fun s => @OutOfFuel A s).
Proof. intros s; exists []; simpl; rewrite app_nil_r; auto. Qed.

Lemma Emits_gets {A} (f : State -> A) : Emits P (gets f).
Proof. intros s; exists []; simpl; rewrite app_nil_r; auto. Qed.

Lemma Emits_set_cloud c : Emits P (set_cloud c).
Proof. intros s; exists []; simpl; rewrite app_nil_r; auto. Qed.

Lemma Emits_set_images v : Emits P (set_images v).
Proof. intros s; exists []; simpl; rewrite app_nil_r; auto. Qed.

Lemma Emits_set_obj svc o : Emits P (set_obj svc o).
Proof. intros s; exists []; destruct svc; simpl; rewrite app_nil_r; auto. Qed.

Lemma Emits_emit e : P e -> Emits P (emit e).
Proof. intros He s; exists [e]; simpl; auto. Qed.

Lemma Emits_authenticate svc key secret :
  (forall h, P (EAuth svc h)) -> Emits P (authenticate svc key secret).
Proof. intros He s; exists [EAuth svc (auth_calls s)]; simpl; auto. Qed.

Lemma Emits_bind {A B} (m : M A) (k : A -> M B) :
  Emits P m -> (forall a, Emits P (k a)) -> Emits P (bind m k).
Proof.
  intros Hm Hk s; unfold bind.
  destruct (Hm s) as [ev1 [E1 F1]].
  destruct (m s) as [a s'|e s'|s'] eqn:Ems; simpl in *.
  - destruct (Hk a s') as [ev2 [E2 F2]].
    exists (ev1 ++ ev2); rewrite E2, E1, app_assoc; split; auto.
    apply Forall_app; auto.
  - exists ev1; auto.
  - exists ev1; auto.
Qed.

Lemma Emits_for_each {A} (f : A -> M unit) l :
  (forall x, Emits P (f x)) -> Emits P (for_each f l).
Proof.
  intros Hf; induction l as [|x l IH]; simpl.
  - apply Emits_ret.
  - apply Emits_bind; auto.
Qed.

End EmitsRules.

Lemma Emits_weaken {A} (P Q : Event -> Prop) (m : M A) :
  (forall e, P e -> Q e) -> Emits P m -> Emits Q m.
Proof.
  intros HPQ Hm s; destruct (Hm s) as [ev [E F]]; exists ev; split; auto.
  eapply Forall_impl; eauto.
Qed.

Section EmitsSeqRules.

Variables P Q : Event -> Prop.

Lemma EmitsSeq_first {A} (m : M A) : Emits P m -> EmitsSeq P Q m.
Proof.
  intros Hm s; destruct (Hm s) as [ev [E F]]; exists ev, [].
  rewrite app_nil_r; auto.
Qed.

Lemma EmitsSeq_bind_first {A B} (m : M A) (k : A -> M B) :
  Emits P m -> (forall a, EmitsSeq P Q (k a)) -> EmitsSeq P Q (bind m k).
Proof.
  intros Hm Hk s; unfold bind.
  destruct (Hm s) as [ev1 [E1 F1]].
  destruct (m s) as [a s'|e s'|s'] eqn:Ems; simpl in *.
  - destruct (Hk a s') as [ev2 [ev3 [E2 [F2 F3]]]].
    exists (ev1 ++ ev2), ev3; rewrite E2, E1, !app_assoc; repeat split; auto.
    apply Forall_app; auto.
  - exists ev1, []; rewrite app_nil_r; auto.
  - exists ev1, []; rewrite app_nil_r; auto.
Qed.

Lemma EmitsSeq_bind_second {A B} (m : M A) (k : A -> M B) :
  EmitsSeq P Q m -> (forall a, Emits Q (k a)) -> EmitsSeq P Q (bind m k).
Proof.
  intros Hm Hk s; unfold bind.
  destruct (Hm s) as [ev1 [ev2 [E1 [F1 F2]]]].
  destruct (m s) as [a s'|e s'|s'] eqn:Ems; simpl in *.
  - destruct (Hk a s') as [ev3 [E3 F3]].
    exists ev1, (ev2 ++ ev3); rewrite E3, E1, !app_assoc; repeat split; auto.
    apply Forall_app; auto.
  - exists ev1, ev2; auto.
  - exists ev1, ev2; auto.
Qed.

End EmitsSeqRules.

Lemma deletes_before_deregister_app ev1 ev2 :
  Forall no_deregister ev1 -> Forall no_delete ev2 ->
  deletes_before_deregister (ev1 ++ ev2).
Proof.
  intros F1 F2 i j b k ami Hi Hj.
  destruct (Nat.lt_ge_cases i (List.length ev1)) as [Li|Li].
  - destruct (Nat.lt_ge_cases j (List.length ev1)) as [Lj|Lj]; [|lia].
    rewrite nth_error_app1 in Hj by exact Lj.
    apply nth_error_In in Hj; rewrite Forall_forall in F1.
    destruct (F1 _ Hj).
  - rewrite nth_error_app2 in Hi by exact Li.
    apply nth_error_In in Hi; rewrite Forall_forall in F2.
    destruct (F2 _ Hi).
Qed.

(** One step of the trace analysis of a monadic program. *)
Ltac emits_step HP :=
  match goal with
  | |- Emits _ (bind _ _) => apply Emits_bind; [| intros ?]
  | |- Emits _ (ret _) => apply Emits_ret
  | |- Emits _ (raise _) => apply Emits_raise
  | |- Emits _ (fun s => OutOfFuel s) => apply Emits_stop
  | |- Emits _ (gets _) => apply Emits_gets
  | |- Emits _ (set_cloud _) => apply Emits_set_cloud
  | |- Emits _ (set_images _) => apply Emits_set_images
  | |- Emits _ (set_obj _ _) => apply Emits_set_obj
  | |- Emits _ (emit _) => apply Emits_emit; apply HP; exact I
  | |- Emits _ (log _ _) => apply Emits_emit; apply HP; exact I
  | |- Emits _ (authenticate _ _ _) =>
      apply Emits_authenticate; intros; apply HP; exact I
  | |- Emits _ (for_each _ _) => apply Emits_for_each; intros ?
  | |- Emits _ (match ?x with _ => _ end) => destruct x
  | |- Emits _ (if ?x then _ else _) => destruct x
  end.

(** Derive a trace predicate on events from a stronger one. *)
Ltac weaken_pred HP :=
  let e := fresh "e" in let He := fresh "He" in
  intros e He; apply HP; destruct e; simpl in *; tauto.

(** The read-only helpers emit no delete and no deregistration. *)
Section ReadOnly.

Variable P : Event -> Prop.
Hypothesis HP : forall e, not_mutating e -> P e.

Lemma conn_emits svc : Emits P (conn svc).
Proof. unfold conn; repeat emits_step HP. Qed.

Lemma get_all_images_emits f : Emits P (get_all_images f).
Proof. unfold get_all_images; repeat (emits_step HP || apply conn_emits). Qed.

Lemma get_image_emits image_id : Emits P (get_image image_id).
Proof. unfold get_image; repeat (emits_step HP || apply get_all_images_emits). Qed.

Lemma get_bucket_emits b : Emits P (get_bucket b).
Proof. unfold get_bucket; repeat (emits_step HP || apply conn_emits). Qed.

Lemma bucket_list_emits b p : Emits P (bucket_list b p).
Proof. unfold bucket_list; repeat emits_step HP. Qed.

Lemma get_image_files_emits image_id : Emits P (get_image_files image_id).
Proof.
  unfold get_image_files.
  repeat (emits_step HP || apply get_image_emits || apply get_bucket_emits
          || apply bucket_list_emits).
Qed.

Lemma registered_images_emits : Emits P registered_images.
Proof. unfold registered_images; repeat (emits_step HP || apply get_all_images_emits). Qed.

End ReadOnly.

Section Mutating.

Variable P : Event -> Prop.

Lemma key_delete_emits o :
  (forall e, no_deregister e -> P e) -> Emits P (key_delete o).
Proof. intros HP; unfold key_delete; repeat emits_step HP. Qed.

Lemma deregister_image_emits ami :
  (forall e, no_delete e -> P e) -> Emits P (deregister_image ami).
Proof.
  intros HP; unfold deregister_image.
  repeat (emits_step HP || (apply conn_emits; weaken_pred HP)).
Qed.

Lemma remove_file_emits pretend file :
  (forall e, no_deregister e -> P e) -> Emits P (remove_file pretend file).
Proof.
  intros HP; unfold remove_file.
  repeat (emits_step HP || apply key_delete_emits; auto).
Qed.

(** The file phase never deregisters. *)
Lemma remove_image_files_emits fuel image_name pretend :
  (forall e, no_deregister e -> P e) ->
  Emits P (remove_image_files fuel image_name pretend).
Proof.
  intros HP; revert pretend; induction fuel as [|fuel IH]; intros pretend; simpl.
  - apply Emits_stop.
  - repeat (emits_step HP
            || (apply get_image_emits; weaken_pred HP)
            || (apply get_image_files_emits; weaken_pred HP)
            || (apply remove_file_emits; auto)
            || apply IH).
Qed.

(** In dry-run mode the file phase only reads and prints. *)
Lemma remove_image_files_pretend_emits fuel image_name :
  (forall e, not_mutating e -> P e) ->
  Emits P (remove_image_files fuel image_name true).
Proof.
  intros HP; induction fuel as [|fuel IH]; simpl.
  - apply Emits_stop.
  - repeat (emits_step HP || apply get_image_emits || apply get_image_files_emits
            || apply IH || (unfold remove_file; apply Emits_emit; apply HP; exact I)
            || auto).
Qed.

End Mutating.

(** ** Dry run *)

(** C2: [remove_image(id, pretend=True)] never issues a delete or a
    deregister call, whatever the image and the outcome of the run (it
    stops with [NameError] on an existing image); the same holds for
    [remove_image_files(id, pretend=True)]. *)
Theorem remove_image_dry_run_no_mutation fuel image_name s :
  (exists ev, trace (state_of (remove_image fuel image_name true s)) = trace s ++ ev
              /\ Forall not_mutating ev) /\
  (exists ev, trace (state_of (remove_image_files fuel image_name true s)) = trace s ++ ev
              /\ Forall not_mutating ev).
Proof.
  assert (HP : forall e, not_mutating e -> not_mutating e) by auto.
  split.
  - revert s; change (Emits not_mutating (remove_image fuel image_name true)).
    unfold remove_image.
    repeat (emits_step HP || apply get_image_emits || auto
            || (apply remove_image_files_pretend_emits; auto)).
  - revert s; apply remove_image_files_pretend_emits; auto.
Qed.

(** ** Ordering of the two phases *)

(** ** Results of the lookups *)

Lemma bind_Ret {A B} (m : M A) (k : A -> M B) s a s' :
  m s = Ret a s' -> bind m k s = k a s'.
Proof. intros E; unfold bind; rewrite E; reflexivity. Qed.

Lemma conn_spec svc s :
  exists h s', conn svc s = Ret h s' /\ cloud s' = cloud s.
Proof.
  unfold conn, bind, gets.
  destruct (_conn (obj_of svc s)) as [h|]; simpl.
  - eauto.
  - destruct svc; simpl; eauto.
Qed.

Lemma get_all_images_spec f s :
  exists s', get_all_images f s
             = Ret (filter (image_matches f (account (cloud s))) (images (cloud s))) s'
          /\ cloud s' = cloud s.
Proof.
  destruct (conn_spec EC2 s) as [h [s1 [E1 C1]]].
  unfold get_all_images; rewrite (bind_Ret _ _ _ _ _ E1).
  unfold bind, emit, gets, ret; simpl; rewrite <- C1; eauto.
Qed.

Lemma get_image_spec image_id s :
  exists s', get_image image_id s = Ret (hd_error (images_with_id image_id (cloud s))) s'
          /\ cloud s' = cloud s.
Proof.
  destruct (get_all_images_spec (ByIds [image_id]) s) as [s1 [E1 C1]].
  unfold get_image; rewrite (bind_Ret _ _ _ _ _ E1).
  exists s1; split; auto.
  unfold ret, images_with_id; f_equal; f_equal.
  apply filter_ext; intros i; simpl; apply orb_false_r.
Qed.

Lemma get_bucket_spec b ks s :
  lookup_bucket b (buckets (cloud s)) = Some ks ->
  exists s', get_bucket b s = Ret b s' /\ cloud s' = cloud s.
Proof.
  intros L; destruct (conn_spec S3 s) as [h [s1 [E1 C1]]].
  unfold get_bucket; rewrite (bind_Ret _ _ _ _ _ E1).
  rewrite <- C1 in L; unfold bind, emit, gets, ret; simpl; rewrite L; eauto.
Qed.

Lemma get_image_files_spec image_id img ks s :
  hd_error (images_with_id image_id (cloud s)) = Some img ->
  lookup_bucket (bucket_name img) (buckets (cloud s)) = Some ks ->
  exists s', get_image_files image_id s
             = Ret (map (mkObj (bucket_name img)) (filter (prefix (image_prefix img)) ks)) s'
          /\ cloud s' = cloud s.
Proof.
  intros Hi Hb.
  destruct (get_image_spec image_id s) as [s1 [E1 C1]].
  unfold get_image_files; rewrite (bind_Ret _ _ _ _ _ E1), Hi.
  rewrite <- C1 in Hb.
  destruct (get_bucket_spec _ _ _ Hb) as [s2 [E2 C2]].
  cbn beta iota; rewrite (bind_Ret _ _ _ _ _ E2).
  unfold bucket_list, bind, emit, gets, ret; simpl.
  rewrite C2, Hb; eexists; split; [reflexivity|]; simpl; congruence.
Qed.

(** C5: [get_image] returns the first image the remote lookup yields, and
    [None] (no exception) when the lookup yields nothing. *)
Theorem get_image_found_or_none image_id s :
  (forall img rest, images_with_id image_id (cloud s) = img :: rest ->
     exists s', get_image image_id s = Ret (Some img) s') /\
  (images_with_id image_id (cloud s) = [] ->
     exists s', get_image image_id s = Ret None s').
Proof.
  destruct (get_image_spec image_id s) as [s1 [E1 _]].
  split; [intros img rest H|intros H]; rewrite H in E1; eauto.
Qed.

(** ** The file set of an image *)








Lemma Emits_Ret {A} (P : Event -> Prop) (m : M A) s a s' :
  Emits P m -> m s = Ret a s' -> exists ev, trace s' = trace s ++ ev /\ Forall P ev.
Proof.
  intros Hm E; destruct (Hm s) as [ev [T F]]; rewrite E in T; eauto.
Qed.

Lemma Forall_not_mutating P ev :
  (forall e, not_mutating e -> P e) -> Forall not_mutating ev -> Forall P ev.
Proof. intros HP F; eapply Forall_impl; [exact HP|exact F]. Qed.

(** ** Identifier shape check *)

(** C4: [get_registered_image] raises [TypeError] on an identifier that does
    not start with "ami" or is not 12 characters long, before any remote
    call (the state, trace included, is unchanged); a well-shaped
    identifier never raises: it yields the image or [None] when no
    registered image has it. *)
Theorem get_registered_image_invalid_shape image_id s :
  startswith image_id "ami" = false \/ String.length image_id <> 12 ->
  get_registered_image image_id s
    = Exc (TypeError ("invalid AMI name/id requested: " ++ image_id)) s /\
  (forall id2 s2, startswith id2 "ami" = true -> String.length id2 = 12 ->
     exists r s2', get_registered_image id2 s2 = Ret r s2' /\
                   (r = None \/ exists img, r = Some img /\ id img = id2)).
Proof.
  intros Hbad; split.
  - unfold get_registered_image.
    destruct Hbad as [H|H]; [rewrite H; reflexivity|].
    apply Nat.eqb_neq in H; rewrite H, orb_true_r; reflexivity.
  - intros id2 s2 H1 H2.
    unfold get_registered_image; rewrite H1, H2; simpl.
    assert (Hreg : exists l s3, registered_images s2 = Ret l s3).
    { unfold registered_images, bind, gets.
      destruct (get_all_images_spec (ByOwners ["self"]) s2) as [s3 [E3 _]].
      destruct (cache s2), (_images s2); simpl; rewrite ?E3; simpl; eauto. }
    destruct Hreg as [l [s3 E3]].
    rewrite (bind_Ret _ _ _ _ _ E3).
    exists (find (fun i => String.eqb (id i) id2) l), s3; split; [reflexivity|].
    destruct (find _ l) as [img|] eqn:Ef; [right|left; reflexivity].
    apply find_some in Ef as [_ Ef]; apply String.eqb_eq in Ef; eauto.
Qed.

(** ** Missing image *)

(** C8: when no image has the identifier, [remove_image] logs that the AMI
    does not exist and returns normally, and [remove_image_files] logs that
    it cannot remove it; neither deletes a file, deregisters or changes the
    cloud. *)
Theorem remove_image_not_found fuel image_name pretend s :
  images_with_id image_name (cloud s) = [] ->
  (exists s' ev, remove_image fuel image_name pretend s = Ret tt s' /\ cloud s' = cloud s
     /\ trace s' = trace s ++ ev ++ [ELog Error ("AMI " ++ image_name ++ " does not exist")]
     /\ Forall not_mutating ev) /\
  (exists s' ev, remove_image_files (S fuel) image_name pretend s = Ret tt s'
     /\ cloud s' = cloud s
     /\ trace s' = trace s ++ ev ++ [ELog Error ("cannot remove AMI " ++ image_name)]
     /\ Forall not_mutating ev).
Proof.
  intros Hnone.
  destruct (get_image_spec image_name s) as [s1 [E1 C1]].
  rewrite Hnone in E1; simpl in E1.
  destruct (Emits_Ret _ _ _ _ _ (get_image_emits _ (fun e H => H) image_name) E1)
    as [ev [T F]].
  split.
  - exists (mkState (ec2 s1) (cache s1) (_images s1) (s3 s1) (cloud s1) (auth_calls s1)
             (trace s1 ++ [ELog Error ("AMI " ++ image_name ++ " does not exist")])), ev.
    unfold remove_image; rewrite (bind_Ret _ _ _ _ _ E1).
    repeat split; auto; simpl; rewrite T, <- app_assoc; reflexivity.
  - exists (mkState (ec2 s1) (cache s1) (_images s1) (s3 s1) (cloud s1) (auth_calls s1)
             (trace s1 ++ [ELog Error ("cannot remove AMI " ++ image_name)])), ev.
    cbn [remove_image_files]; rewrite (bind_Ret _ _ _ _ _ E1).
    repeat split; auto; simpl; rewrite T, <- app_assoc; reflexivity.
Qed.

(** ** The unbound name in the dry run *)

(** C10: on an existing image, [remove_image(id, pretend=True)] raises
    [NameError] for [imageid] right after the lookup: the state at the
    exception is the state the lookup left, so neither the file phase nor
    the deregistration step is reached. *)
Theorem remove_image_dry_run_name_error fuel image_name img s :
  hd_error (images_with_id image_name (cloud s)) = Some img ->
  exists s', get_image image_name s = Ret (Some img) s'
          /\ remove_image fuel image_name true s = Exc (NameError "imageid") s'.
Proof.
  intros Hi.
  destruct (get_image_spec image_name s) as [s1 [E1 _]].
  rewrite Hi in E1; exists s1; split; auto.
  unfold remove_image; rewrite (bind_Ret _ _ _ _ _ E1); reflexivity.
Qed.

(** ** Lazy connection *)

Lemma access_conn_memo svc h k s :
  _conn (obj_of svc s) = Some h -> access_conn svc k s = Ret (repeat h k) s.
Proof.
  intros H; induction k as [|k IH]; [reflexivity|].
  cbn [access_conn].
  assert (E : conn svc s = Ret h s) by (unfold conn, bind, gets; rewrite H; reflexivity).
  rewrite (bind_Ret _ _ _ _ _ E), (bind_Ret _ _ _ _ _ IH); reflexivity.
Qed.

(** C9: building an [EasyEC2] invokes no authenticator; the first read of
    [conn] (of the EC2 object or of its [s3] sub-object) invokes it exactly
    once, and that read and every later one return the same handle with no
    further authentication. *)
Theorem conn_lazy_and_memoised key secret cache0 c auth tr svc k :
  let s0 := EasyEC2_init key secret cache0 c auth tr in
  auth_calls s0 = auth /\ trace s0 = tr /\ _conn (obj_of svc s0) = None /\
  exists s', access_conn svc (S k) s0 = Ret (repeat auth (S k)) s'
          /\ auth_calls s' = S auth
          /\ trace s' = tr ++ [ELog Debug "creating self._conn"; EAuth svc auth].
Proof.
  intros s0; repeat split; [destruct svc; reflexivity|].
  set (s1 := mkState (if svc then mkEasyAWS key secret (Some auth) else ec2 s0)
                     cache0 None
                     (if svc then s3 s0 else mkEasyAWS key secret (Some auth))
                     c (S auth) ((tr ++ [ELog Debug "creating self._conn"]) ++ [EAuth svc auth])).
  assert (E : conn svc s0 = Ret auth s1) by (destruct svc; reflexivity).
  assert (M1 : _conn (obj_of svc s1) = Some auth) by (destruct svc; reflexivity).
  exists s1; cbn [access_conn].
  rewrite (bind_Ret _ _ _ _ _ E), (bind_Ret _ _ _ _ _ (access_conn_memo _ _ k _ M1)).
  repeat split; simpl; rewrite <- app_assoc; reflexivity.
Qed.

(** ** Image without files *)

Lemma bind_emit {B} e (k : unit -> M B) s :
  bind (emit e) k s
  = k tt (mkState (ec2 s) (cache s) (_images s) (s3 s) (cloud s)
                  (auth_calls s) (trace s ++ [e])).
Proof. reflexivity. Qed.

Lemma not_mutating_no_delete e : not_mutating e -> no_delete e.
Proof. destruct e; simpl; tauto. Qed.

Lemma remove_image_files_nothing_left fuel image_name img ks s :
  hd_error (images_with_id image_name (cloud s)) = Some img ->
  lookup_bucket (bucket_name img) (buckets (cloud s)) = Some ks ->
  filter (prefix (image_prefix img)) ks = [] ->
  exists s', remove_image_files (S fuel) image_name false s = Ret tt s'
          /\ cloud s' = cloud s
          /\ exists ev, trace s' = trace s ++ ev /\ Forall not_mutating ev.
Proof.
  intros Hi Hb Hf.
  destruct (get_image_spec image_name s) as [s1 [E1 C1]]; rewrite Hi in E1.
  destruct (Emits_Ret _ _ _ _ _ (get_image_emits _ (fun e H => H) image_name) E1)
    as [ev1 [T1 F1]].
  rewrite <- C1 in Hi, Hb.
  destruct (get_image_files_spec image_name img ks s1 Hi Hb) as [s2 [E2 C2]].
  destruct (Emits_Ret _ _ _ _ _ (get_image_files_emits _ (fun e H => H) image_name) E2)
    as [ev2 [T2 F2]].
  rewrite Hf in E2; cbn [map] in E2.
  rewrite <- C2 in Hi, Hb.
  destruct (get_image_files_spec image_name img ks s2 Hi Hb) as [s3 [E3 C3]].
  destruct (Emits_Ret _ _ _ _ _ (get_image_files_emits _ (fun e H => H) image_name) E3)
    as [ev3 [T3 F3]].
  rewrite Hf in E3; cbn [map] in E3.
  cbn [remove_image_files].
  rewrite (bind_Ret _ _ _ _ _ E1); cbn beta iota.
  rewrite (bind_Ret _ _ _ _ _ E2); cbn beta.
  rewrite (bind_Ret (for_each (remove_file false) []) _ s2 tt s2 eq_refl).
  rewrite (bind_Ret _ _ _ _ _ E3).
  exists s3; split; [reflexivity|split; [rewrite C3, C2, C1; reflexivity|]].
  exists (ev1 ++ ev2 ++ ev3); rewrite T3, T2, T1, !app_assoc; split; auto.
  repeat (apply Forall_app; split); auto.
Qed.

(** C6: for an existing image whose bucket holds no object with the
    image's prefix, [remove_image(id, pretend=False)] issues no delete and
    ends with the deregistration of the image. *)
Theorem remove_image_no_files_deregisters fuel image_name img ks s :
  hd_error (images_with_id image_name (cloud s)) = Some img ->
  lookup_bucket (bucket_name img) (buckets (cloud s)) = Some ks ->
  filter (prefix (image_prefix img)) ks = [] ->
  exists s' ev, remove_image (S fuel) image_name false s = Ret tt s'
             /\ trace s' = trace s ++ ev ++ [EDeregister (id img)]
             /\ Forall no_delete ev.
Proof.
  intros Hi Hb Hf.
  destruct (get_image_spec image_name s) as [s1 [E1 C1]].
  rewrite Hi in E1.
  destruct (Emits_Ret _ _ _ _ _ (get_image_emits _ (fun e H => H) image_name) E1)
    as [ev1 [T1 F1]].
  unfold remove_image; rewrite (bind_Ret _ _ _ _ _ E1); cbn beta iota.
  unfold log; rewrite bind_emit; cbn beta; rewrite bind_emit; cbn beta.
  match goal with |- exists _ _, bind _ _ ?st = _ /\ _ => set (sA := st) end.
  destruct (remove_image_files_nothing_left fuel image_name img ks sA)
    as [s4 [E4 [C4 [ev4 [T4 F4]]]]];
    [try (change (cloud sA) with (cloud s1); rewrite C1); assumption .. |].
  rewrite (bind_Ret _ _ _ _ _ E4); cbn beta zeta iota.
  rewrite bind_emit; cbn beta.
  unfold deregister_image.
  match goal with |- exists _ _, bind _ _ ?st = _ /\ _ => set (sB := st) end.
  destruct (conn_spec EC2 sB) as [h [s5 [E5 C5]]].
  destruct (Emits_Ret _ _ _ _ _ (conn_emits _ (fun e H => H) EC2) E5) as [ev5 [T5 F5]].
  rewrite (bind_Ret _ _ _ _ _ E5); cbn beta.
  rewrite bind_emit; unfold bind, gets, set_cloud; cbn.
  eexists; exists (ev1 ++ [ELog Info ("Removing AMI: " ++ image_name);
                           ELog Info "Removing image files..."] ++ ev4
                   ++ [ELog Info ("Deregistering ami: " ++ id img)] ++ ev5).
  split; [reflexivity|split].
  - rewrite T5; unfold sB; cbn [trace]; rewrite T4; unfold sA; cbn [trace].
    rewrite T1; rewrite <- !app_assoc; reflexivity.
  - assert (G : forall ev, Forall not_mutating ev -> Forall no_delete ev)
      by (intros ev; apply Forall_impl, not_mutating_no_delete).
    repeat (apply Forall_app; split); auto; repeat constructor.
Qed.

(** ** A store that never empties *)

Lemma count_deletes_app l1 l2 :
  count_deletes (l1 ++ l2) = count_deletes l1 + count_deletes l2.
Proof. unfold count_deletes; rewrite filter_app, length_app; reflexivity. Qed.

Lemma lookup_remove_key b b' k' bs :
  lookup_bucket b (remove_key b' k' bs)
  = if String.eqb b' b
    then option_map (filter (fun x => negb (String.eqb x k'))) (lookup_bucket b bs)
    else lookup_bucket b bs.
Proof.
  destruct (String.eqb_spec b' b) as [<-|Hb];
    induction bs as [|[n ks] bs IH]; simpl; auto.
  - destruct (String.eqb_spec n b') as [->|Hn]; simpl.
    + rewrite String.eqb_refl; reflexivity.
    + destruct (String.eqb_spec n b') as [|_]; [congruence|exact IH].
  - destruct (String.eqb_spec n b') as [->|Hn]; simpl.
    + destruct (String.eqb_spec b' b) as [|_]; [congruence|exact IH].
    + destruct (String.eqb n b); auto.
Qed.

Lemma key_delete_sticky image_name img k o s :
  sticky_store image_name img k (cloud s) ->
  exists s', key_delete o s = Ret tt s'
          /\ sticky_store image_name img k (cloud s')
          /\ trace s' = trace s ++ [EDeleteKey (obj_bucket o) (obj_key o)].
Proof.
  intros [Hi [[ks [Hb Hk]] [Hp Hu]]].
  unfold key_delete; rewrite bind_emit; unfold bind, gets; cbn.
  destruct (is_undeletable (obj_bucket o) (obj_key o) (cloud s)) eqn:Eu.
  - eexists; split; [reflexivity|split; [repeat split; eauto|reflexivity]].
  - eexists; split; [reflexivity|split; [|reflexivity]]; cbn.
    repeat split; auto.
    cbn [buckets]; rewrite lookup_remove_key, Hb.
    destruct (String.eqb_spec (obj_bucket o) (bucket_name img)) as [Eb|]; eauto.
    eexists; split; [reflexivity|].
    apply filter_In; split; auto.
    destruct (String.eqb_spec k (obj_key o)) as [Ek|]; auto.
    rewrite <- Eb, Ek, Eu in Hu; discriminate.
Qed.

Lemma remove_files_sticky image_name img k files s :
  sticky_store image_name img k (cloud s) ->
  exists s' ev, for_each (remove_file false) files s = Ret tt s'
             /\ sticky_store image_name img k (cloud s')
             /\ trace s' = trace s ++ ev /\ count_deletes ev = List.length files.
Proof.
  revert s; induction files as [|o files IH]; intros s Hs.
  - exists s, []; rewrite app_nil_r; auto.
  - cbn [for_each].
    assert (E1 : exists s1, remove_file false o s = Ret tt s1
                 /\ sticky_store image_name img k (cloud s1)
                 /\ trace s1 = trace s ++ [EPrint ("removing file " ++ key_repr o);
                                         EDeleteKey (obj_bucket o) (obj_key o)]).
    { unfold remove_file; rewrite bind_emit.
      destruct (key_delete_sticky image_name img k o
                  (mkState (ec2 s) (cache s) (_images s) (s3 s) (cloud s) (auth_calls s)
                           (trace s ++ [EPrint ("removing file " ++ key_repr o)])))
        as [s1 [E1 [H1 T1]]]; [exact Hs|].
      exists s1; rewrite E1, T1; cbn [trace]; rewrite <- app_assoc; auto. }
    destruct E1 as [s1 [E1 [H1 T1]]].
    rewrite (bind_Ret _ _ _ _ _ E1).
    destruct (IH s1 H1) as [s2 [ev [E2 [H2 [T2 C2]]]]].
    exists s2, ([EPrint ("removing file " ++ key_repr o);
                 EDeleteKey (obj_bucket o) (obj_key o)] ++ ev).
    refine (conj E2 (conj H2 (conj _ _))).
    + rewrite T2, T1, <- app_assoc; reflexivity.
    + rewrite count_deletes_app, C2; reflexivity.
Qed.

Lemma filter_prefix_nonempty p k ks :
  In k ks -> prefix p k = true -> 1 <= List.length (filter (prefix p) ks).
Proof.
  intros Hk Hp.
  assert (H : In k (filter (prefix p) ks)) by (apply filter_In; auto).
  destruct (filter (prefix p) ks); [destruct H|simpl; lia].
Qed.

(** Against a store that never empties, every level of
    [remove_image_files(id, pretend=False)] deletes again and calls itself
    again: whatever the depth allowed, the recursion is still running when
    it is reached, after at least one delete per level. *)
Lemma remove_image_files_sticky n image_name img k s :
  sticky_store image_name img k (cloud s) ->
  exists s' ev, remove_image_files n image_name false s = OutOfFuel s'
             /\ trace s' = trace s ++ ev /\ n <= count_deletes ev.
Proof.
  revert s; induction n as [|n IH]; intros s Hs.
  - exists s, []; rewrite app_nil_r; repeat split; auto.
  - pose proof Hs as [Hi [[ks [Hb Hk]] [Hp Hu]]].
    destruct (get_image_spec image_name s) as [s1 [E1 C1]]; rewrite Hi in E1.
    destruct (Emits_Ret _ _ _ _ _ (get_image_emits _ (fun e H => H) image_name) E1)
      as [ev1 [T1 _]].
    rewrite <- C1 in Hi, Hb.
    destruct (get_image_files_spec image_name img ks s1 Hi Hb) as [s2 [E2 C2]].
    destruct (Emits_Ret _ _ _ _ _ (get_image_files_emits _ (fun e H => H) image_name) E2)
      as [ev2 [T2 _]].
    assert (Hs2 : sticky_store image_name img k (cloud s2)) by (rewrite C2, C1; exact Hs).
    destruct (remove_files_sticky image_name img k
                (map (mkObj (bucket_name img)) (filter (prefix (image_prefix img)) ks)) s2 Hs2)
      as [s3 [ev3 [E3 [H3 [T3 N3]]]]].
    pose proof H3 as [Hi3 [[ks3 [Hb3 Hk3]] _]].
    destruct (get_image_files_spec image_name img ks3 s3 Hi3 Hb3) as [s4 [E4 C4]].
    destruct (Emits_Ret _ _ _ _ _ (get_image_files_emits _ (fun e H => H) image_name) E4)
      as [ev4 [T4 _]].
    cbn [remove_image_files].
    rewrite (bind_Ret _ _ _ _ _ E1); cbn beta iota.
    rewrite (bind_Ret _ _ _ _ _ E2); cbn beta.
    rewrite (bind_Ret _ _ _ _ _ E3).
    rewrite (bind_Ret _ _ _ _ _ E4); cbn beta.
    assert (L : Nat.eqb (List.length (map (mkObj (bucket_name img))
                                           (filter (prefix (image_prefix img)) ks3))) 0
                = false).
    { rewrite length_map; apply Nat.eqb_neq.
      pose proof (filter_prefix_nonempty _ _ _ Hk3 Hp); lia. }
    rewrite L; cbn [negb].
    unfold log; rewrite bind_emit.
    match goal with |- exists _ _, remove_image_files n image_name false ?st = _ /\ _ =>
      set (sB := st) end.
    assert (Hs5 : sticky_store image_name img k (cloud sB))
      by (change (cloud sB) with (cloud s4); rewrite C4; exact H3).
    destruct (IH sB Hs5) as [s6 [ev6 [E6 [T6 N6]]]].
    exists s6, (ev1 ++ ev2 ++ ev3 ++ ev4
                ++ [ELog Info "Not all files deleted, recursing..."] ++ ev6).
    split; [exact E6|split].
    + rewrite T6; unfold sB; cbn [trace]; rewrite T4, T3, T2, T1, <- !app_assoc.
      reflexivity.
    + rewrite !count_deletes_app, N3, length_map.
      pose proof (filter_prefix_nonempty _ _ _ Hk Hp); lia.
Qed.

Lemma bind_OutOfFuel {A B} (m : M A) (k : A -> M B) s s' :
  m s = OutOfFuel s' -> bind m k s = OutOfFuel s'.
Proof. intros E; unfold bind; rewrite E; reflexivity. Qed.

Lemma remove_image_sticky n image_name img k s :
  sticky_store image_name img k (cloud s) ->
  exists s' ev, remove_image n image_name false s = OutOfFuel s'
             /\ trace s' = trace s ++ ev /\ n <= count_deletes ev
             /\ Forall no_deregister ev.
Proof.
  intros Hs; pose proof Hs as [Hi _].
  destruct (get_image_spec image_name s) as [s1 [E1 C1]]; rewrite Hi in E1.
  destruct (Emits_Ret _ _ _ _ _ (get_image_emits _ (fun e H => H) image_name) E1)
    as [ev1 [T1 F1]].
  unfold remove_image; rewrite (bind_Ret _ _ _ _ _ E1); cbn beta iota.
  unfold log; rewrite bind_emit; cbn beta; rewrite bind_emit; cbn beta.
  match goal with |- exists _ _, bind _ _ ?st = _ /\ _ => set (sA := st) end.
  assert (HsA : sticky_store image_name img k (cloud sA))
    by (change (cloud sA) with (cloud s1); rewrite C1; exact Hs).
  destruct (remove_image_files_sticky n image_name img k sA HsA)
    as [s2 [ev2 [E2 [T2 N2]]]].
  destruct (remove_image_files_emits no_deregister n image_name false (fun e H => H) sA)
    as [ev2' [T2' F2]].
  rewrite E2 in T2'; simpl in T2'; rewrite T2 in T2'; apply app_inv_head in T2'; subst ev2'.
  exists s2, (ev1 ++ [ELog Info ("Removing AMI: " ++ image_name);
                      ELog Info "Removing image files..."] ++ ev2).
  split; [apply bind_OutOfFuel; exact E2|split; [|split]].
  - rewrite T2; unfold sA; cbn [trace]; rewrite T1, <- !app_assoc; reflexivity.
  - rewrite !count_deletes_app; lia.
  - repeat (apply Forall_app; split); auto; [|repeat constructor].
    eapply Forall_impl; [|exact F1]; intros []; simpl; tauto.
Qed.

(** ** Retry bound *)

(** C1 (as the code behaves): [remove_image_files] has no retry bound and
    no [DeletionIncomplete] outcome.  Against a store that never empties,
    [remove_image(id, pretend=False)] is, at every recursion depth [n],
    still recursing, after at least [n] delete calls and no
    deregistration. *)
Theorem remove_image_unbounded_retry n image_name img k s :
  sticky_store image_name img k (cloud s) ->
  exists s' ev, remove_image n image_name false s = OutOfFuel s'
             /\ trace s' = trace s ++ ev /\ n <= count_deletes ev
             /\ Forall no_deregister ev.
Proof. apply remove_image_sticky. Qed.

(** ** Runs on the sample clouds *)

Example demo_remove_image_run :
  trace (state_of (remove_image 3 "ami-1a2b3c4d" false (demo_state demo_cloud))) =
  [ELog Debug "creating self._conn"; EAuth EC2 0;
   EDescribeImages (ByIds ["ami-1a2b3c4d"]);
   ELog Info "Removing AMI: ami-1a2b3c4d";
   ELog Info "Removing image files...";
   EDescribeImages (ByIds ["ami-1a2b3c4d"]);
   EDescribeImages (ByIds ["ami-1a2b3c4d"]);
   ELog Debug "creating self._conn"; EAuth S3 1;
   EGetBucket "mybucket"; EListBucket "mybucket" "img";
   EPrint "removing file <Key: mybucket,img.part.0>";
   EDeleteKey "mybucket" "img.part.0";
   EPrint "removing file <Key: mybucket,img.part.1>";
   EDeleteKey "mybucket" "img.part.1";
   EDescribeImages (ByIds ["ami-1a2b3c4d"]);
   EGetBucket "mybucket"; EListBucket "mybucket" "img";
   ELog Info "Deregistering ami: ami-1a2b3c4d";
   EDeregister "ami-1a2b3c4d"].
Proof. vm_compute; reflexivity. Qed.

Example demo_remove_image_dry_run :
  exists s', remove_image 3 "ami-1a2b3c4d" true (demo_state demo_cloud)
             = Exc (NameError "imageid") s'.
Proof. eexists; vm_compute; reflexivity. Qed.

(** ** Witnesses *)

Lemma sticky_store_demo : sticky_store "ami-1a2b3c4d" demo_image "img.part.1" sticky_cloud.
Proof.
  split; [reflexivity|split; [|split; reflexivity]].
  exists ["img.part.0"; "img.part.1"]; split; [reflexivity|simpl; auto].
Qed.

Lemma remove_image_unbounded_retry_witness :
  sticky_store "ami-1a2b3c4d" demo_image "img.part.1" (cloud (demo_state sticky_cloud)) /\
  exists s' ev, remove_image 4 "ami-1a2b3c4d" false (demo_state sticky_cloud) = OutOfFuel s'
             /\ trace s' = trace (demo_state sticky_cloud) ++ ev /\ 4 <= count_deletes ev
             /\ Forall no_deregister ev.
Proof.
  split; [exact sticky_store_demo|].
  apply (remove_image_unbounded_retry 4 "ami-1a2b3c4d" demo_image "img.part.1").
  exact sticky_store_demo.
Defined.

(** C1, as stated, fails: on [sticky_cloud], [remove_image(id,
    pretend=False)] neither returns nor raises at any recursion depth, so
    there is no retry bound after which it reports [DeletionIncomplete]. *)
Lemma remove_image_no_retry_bound :
  ~ exists n s', remove_image n "ami-1a2b3c4d" false (demo_state sticky_cloud) = Ret tt s'
                 \/ exists e, remove_image n "ami-1a2b3c4d" false (demo_state sticky_cloud)
                              = Exc e s'.
Proof.
  intros [n [s' H]].
  destruct (remove_image_sticky n "ami-1a2b3c4d" demo_image "img.part.1"
              (demo_state sticky_cloud) sticky_store_demo) as [s'' [ev [E _]]].
  rewrite E in H; destruct H as [H|[e H]]; discriminate.
Qed.

Lemma get_image_found_or_none_witness :
  images_with_id "ami-1a2b3c4d" (cloud (demo_state demo_cloud)) = [demo_image] /\
  exists s', get_image "ami-1a2b3c4d" (demo_state demo_cloud) = Ret (Some demo_image) s'.
Proof.
  split; [reflexivity|].
  apply (proj1 (get_image_found_or_none "ami-1a2b3c4d" (demo_state demo_cloud)) demo_image []).
  reflexivity.
Defined.

Lemma get_registered_image_invalid_shape_witness :
  String.length "ami-1" <> 12 /\
  get_registered_image "ami-1" (demo_state demo_cloud)
    = Exc (TypeError ("invalid AMI name/id requested: " ++ "ami-1")) (demo_state demo_cloud).
Proof.
  split; [discriminate|].
  apply (get_registered_image_invalid_shape "ami-1" (demo_state demo_cloud)).
  right; discriminate.
Defined.

Lemma remove_image_not_found_witness :
  images_with_id "ami-00000000" (cloud (demo_state demo_cloud)) = [] /\
  exists s' ev, remove_image 3 "ami-00000000" false (demo_state demo_cloud) = Ret tt s'
     /\ cloud s' = cloud (demo_state demo_cloud)
     /\ trace s' = trace (demo_state demo_cloud) ++ ev
                   ++ [ELog Error ("AMI " ++ "ami-00000000" ++ " does not exist")]
     /\ Forall not_mutating ev.
Proof.
  split; [reflexivity|].
  apply (remove_image_not_found 3 "ami-00000000" false (demo_state demo_cloud)).
  reflexivity.
Defined.

Lemma remove_image_dry_run_name_error_witness :
  hd_error (images_with_id "ami-1a2b3c4d" (cloud (demo_state demo_cloud))) = Some demo_image /\
  exists s', get_image "ami-1a2b3c4d" (demo_state demo_cloud) = Ret (Some demo_image) s'
          /\ remove_image 3 "ami-1a2b3c4d" true (demo_state demo_cloud)
             = Exc (NameError "imageid") s'.
Proof.
  split; [reflexivity|].
  apply (remove_image_dry_run_name_error 3 "ami-1a2b3c4d" demo_image).
  reflexivity.
Defined.

Lemma remove_image_no_files_deregisters_witness :
  hd_error (images_with_id "ami-1a2b3c4d" (cloud (demo_state empty_cloud))) = Some demo_image /\
  lookup_bucket (bucket_name demo_image) (buckets (cloud (demo_state empty_cloud)))
    = Some ["other"] /\
  filter (prefix (image_prefix demo_image)) ["other"] = [] /\
  exists s' ev, remove_image 1 "ami-1a2b3c4d" false (demo_state empty_cloud) = Ret tt s'
             /\ trace s' = trace (demo_state empty_cloud) ++ ev ++ [EDeregister (id demo_image)]
             /\ Forall no_delete ev.
Proof.
  split; [reflexivity|split; [reflexivity|split; [reflexivity|]]].
  apply (remove_image_no_files_deregisters 0 "ami-1a2b3c4d" demo_image ["other"]);
    reflexivity.
Defined.



(** ** Reads that print nothing *)

Section Quiet.

Variable P : Event -> Prop.
Hypothesis HP : forall e, quiet e -> P e.

Lemma conn_quiet svc : Emits P (conn svc).
Proof. unfold conn; repeat emits_step HP. Qed.

Lemma get_all_images_quiet f : Emits P (get_all_images f).
Proof. unfold get_all_images; repeat (emits_step HP || apply conn_quiet). Qed.

Lemma get_image_quiet image_id : Emits P (get_image image_id).
Proof. unfold get_image; repeat (emits_step HP || apply get_all_images_quiet). Qed.

Lemma get_bucket_quiet b : Emits P (get_bucket b).
Proof. unfold get_bucket; repeat (emits_step HP || apply conn_quiet). Qed.

Lemma bucket_list_quiet b p : Emits P (bucket_list b p).
Proof. unfold bucket_list; repeat emits_step HP. Qed.

Lemma get_image_files_quiet image_id : Emits P (get_image_files image_id).
Proof.
  unfold get_image_files.
  repeat (emits_step HP || apply get_image_quiet || apply get_bucket_quiet
          || apply bucket_list_quiet).
Qed.

End Quiet.

Lemma quiet_not_mutating e : quiet e -> not_mutating e.
Proof. destruct e; simpl; tauto. Qed.

Lemma bind_Exc {A B} (m : M A) (k : A -> M B) s e s' :
  m s = Exc e s' -> bind m k s = Exc e s'.
Proof. intros E; unfold bind; rewrite E; reflexivity. Qed.

Lemma no_deregister_not_in ev ami :
  Forall no_deregister ev -> In (EDeregister ami) ev -> False.
Proof. intros F Hin; rewrite Forall_forall in F; exact (F _ Hin). Qed.

Lemma not_mutating_no_deregister e : not_mutating e -> no_deregister e.
Proof. destruct e; simpl; tauto. Qed.

(** C3: in every run of [remove_image(id, pretend=False)], every file
    deletion is recorded strictly before every deregistration, and a
    deregistration happens only in a run where the file phase has run to
    its end first: the image was found, [remove_image_files] was entered
    after the two log lines and returned normally, the events up to its
    return hold no deregistration and the events after it hold no
    deletion. *)
Theorem remove_image_deletes_before_deregister fuel image_name s :
  exists ev, trace (state_of (remove_image fuel image_name false s)) = trace s ++ ev
    /\ deletes_before_deregister ev
    /\ (forall ami, In (EDeregister ami) ev ->
          exists img s0 s1 s2 ev1 ev2,
            get_image image_name s = Ret (Some img) s0
            /\ (log Info ("Removing AMI: " ++ image_name)%string ;;;
                log Info "Removing image files...") s0 = Ret tt s1
            /\ remove_image_files fuel image_name false s1 = Ret tt s2
            /\ trace s2 = trace s ++ ev1
            /\ ev = ev1 ++ ev2
            /\ Forall no_deregister ev1 /\ Forall no_delete ev2).
Proof.
  assert (HS : EmitsSeq no_deregister no_delete (remove_image fuel image_name false)).
  { unfold remove_image.
    apply EmitsSeq_bind_first; [apply get_image_emits; weaken_pred (fun e (H : no_deregister e) => H)|].
    intros [img|]; simpl.
    - apply EmitsSeq_bind_first; [apply Emits_emit; exact I|]; intros _.
      apply EmitsSeq_bind_first; [apply Emits_emit; exact I|]; intros _.
      apply EmitsSeq_bind_second.
      + apply EmitsSeq_first, remove_image_files_emits; auto.
      + intros _; apply Emits_bind; [apply Emits_emit; exact I|]; intros _.
        apply deregister_image_emits; auto.
    - apply EmitsSeq_first, Emits_emit; exact I. }
  destruct (HS s) as [e1 [e2 [E [F1 F2]]]].
  exists (e1 ++ e2); split; [exact E|split; [apply deletes_before_deregister_app; auto|]].
  intros ami Hin.
  destruct (get_image_emits no_deregister not_mutating_no_deregister image_name s)
    as [ev0 [T0 F0]].
  unfold remove_image in E.
  destruct (get_image image_name s) as [[img|] s0|e s0|s0] eqn:G;
    cbn [state_of] in T0.
  - rewrite (bind_Ret _ _ _ _ _ G) in E; cbn beta iota in E.
    unfold log in E; rewrite bind_emit in E; cbn beta in E; rewrite bind_emit in E;
      cbn beta in E.
    match type of E with context [bind (remove_image_files _ _ _) _ ?st] =>
      set (sA := st) in E end.
    assert (TA : trace sA = trace s0 ++ [ELog Info ("Removing AMI: " ++ image_name)%string;
                                         ELog Info "Removing image files..."])
      by (unfold sA; cbn [trace]; rewrite <- app_assoc; reflexivity).
    destruct (remove_image_files_emits no_deregister fuel image_name false (fun e H => H) sA)
      as [ev2' [T2 F2']].
    destruct (remove_image_files fuel image_name false sA) as [u s2|e s2|s2] eqn:R;
      cbn [state_of] in T2.
    + destruct u.
      rewrite (bind_Ret _ _ _ _ _ R) in E.
      assert (HD : Emits no_delete (emit (ELog Info ("Deregistering ami: " ++ id img)%string) ;;;
                                    deregister_image (id img)))
        by (apply Emits_bind; [apply Emits_emit; exact I|intros _; apply deregister_image_emits; auto]).
      destruct (HD s2) as [ev3 [T3 F3]].
      assert (E' : trace s2 ++ ev3 = trace s ++ e1 ++ e2) by (rewrite <- T3; exact E).
      rewrite T2, TA, T0, <- !app_assoc in E'; apply app_inv_head in E'.
      exists img, s0, sA, s2,
        (ev0 ++ [ELog Info ("Removing AMI: " ++ image_name)%string;
                 ELog Info "Removing image files..."] ++ ev2'), ev3.
      split; [reflexivity|split; [reflexivity|split; [exact R|split]]].
      * rewrite T2, TA, T0, <- !app_assoc; reflexivity.
      * split; [rewrite <- E', <- !app_assoc; reflexivity|split; [|exact F3]].
        apply Forall_app; split; [exact F0|apply Forall_app; split; [repeat constructor|exact F2']].
    + rewrite (bind_Exc _ _ _ _ _ R) in E; cbn [state_of] in E.
      rewrite T2, TA, T0, <- !app_assoc in E; apply app_inv_head in E.
      exfalso; apply (no_deregister_not_in (e1 ++ e2) ami); [|exact Hin].
      rewrite <- E; apply Forall_app; split; [exact F0|].
      apply Forall_app; split; [repeat constructor|exact F2'].
    + rewrite (bind_OutOfFuel _ _ _ _ R) in E; cbn [state_of] in E.
      rewrite T2, TA, T0, <- !app_assoc in E; apply app_inv_head in E.
      exfalso; apply (no_deregister_not_in (e1 ++ e2) ami); [|exact Hin].
      rewrite <- E; apply Forall_app; split; [exact F0|].
      apply Forall_app; split; [repeat constructor|exact F2'].
  - rewrite (bind_Ret _ _ _ _ _ G) in E; cbn beta iota in E.
    change (trace s0 ++ [ELog Error ("AMI " ++ image_name ++ " does not exist")%string]
            = trace s ++ e1 ++ e2) in E.
    rewrite T0, <- app_assoc in E; apply app_inv_head in E.
    exfalso; apply (no_deregister_not_in (e1 ++ e2) ami); [|exact Hin].
    rewrite <- E; apply Forall_app; split; [exact F0|repeat constructor].
  - rewrite (bind_Exc _ _ _ _ _ G) in E; cbn [state_of] in E.
    rewrite T0 in E; apply app_inv_head in E.
    exfalso; apply (no_deregister_not_in (e1 ++ e2) ami); [|exact Hin].
    rewrite <- E; exact F0.
  - rewrite (bind_OutOfFuel _ _ _ _ G) in E; cbn [state_of] in E.
    rewrite T0 in E; apply app_inv_head in E.
    exfalso; apply (no_deregister_not_in (e1 ++ e2) ami); [|exact Hin].
    rewrite <- E; exact F0.
Qed.

Lemma get_bucket_missing b s :
  lookup_bucket b (buckets (cloud s)) = None ->
  exists s', get_bucket b s = Exc (S3ResponseError b) s' /\ cloud s' = cloud s.
Proof.
  intros L; destruct (conn_spec S3 s) as [h [s1 [E1 C1]]].
  unfold get_bucket; rewrite (bind_Ret _ _ _ _ _ E1).
  rewrite <- C1 in L; unfold bind, emit, gets, raise; simpl; rewrite L; eauto.
Qed.

(** The three outcomes of [get_image_files]. *)
Lemma get_image_files_cases image_id s :
  exists s', cloud s' = cloud s /\
    get_image_files image_id s =
      match hd_error (images_with_id image_id (cloud s)) with
      | None => Exc (AttributeError "'NoneType' object has no attribute 'location'") s'
      | Some img =>
          match lookup_bucket (bucket_name img) (buckets (cloud s)) with
          | None => Exc (S3ResponseError (bucket_name img)) s'
          | Some ks =>
              Ret (map (mkObj (bucket_name img)) (filter (prefix (image_prefix img)) ks)) s'
          end
      end.
Proof.
  destruct (hd_error (images_with_id image_id (cloud s))) as [img|] eqn:Hi.
  - destruct (lookup_bucket (bucket_name img) (buckets (cloud s))) as [ks|] eqn:Hb.
    + destruct (get_image_files_spec image_id img ks s Hi Hb) as [s' [E C]]; eauto.
    + destruct (get_image_spec image_id s) as [s1 [E1 C1]]; rewrite Hi in E1.
      rewrite <- C1 in Hb.
      destruct (get_bucket_missing _ _ Hb) as [s2 [E2 C2]].
      exists s2; split; [congruence|].
      unfold get_image_files; rewrite (bind_Ret _ _ _ _ _ E1); cbn beta iota.
      apply bind_Exc; exact E2.
  - destruct (get_image_spec image_id s) as [s1 [E1 C1]]; rewrite Hi in E1.
    exists s1; split; [exact C1|].
    unfold get_image_files; rewrite (bind_Ret _ _ _ _ _ E1); reflexivity.
Qed.

Lemma for_each_print {A} (f : A -> string) l s :
  for_each (fun x => emit (EPrint (f x))) l s
  = Ret tt (mkState (ec2 s) (cache s) (_images s) (s3 s) (cloud s) (auth_calls s)
                    (trace s ++ map (fun x => EPrint (f x)) l)).
Proof.
  revert s; induction l as [|x l IH]; intros s.
  - simpl; rewrite app_nil_r; destruct s; reflexivity.
  - cbn [for_each]; rewrite bind_emit, IH; simpl; rewrite <- app_assoc; reflexivity.
Qed.

Lemma bucket_list_run b p s :
  bucket_list b p s
  = Ret (map (mkObj b) (filter (prefix p) (match lookup_bucket b (buckets (cloud s)) with
                                           | Some ks => ks | None => [] end)))
        (mkState (ec2 s) (cache s) (_images s) (s3 s) (cloud s) (auth_calls s)
                 (trace s ++ [EListBucket b p])).
Proof. reflexivity. Qed.

Lemma prefix_empty k : prefix "" k = true.
Proof. destruct k; reflexivity. Qed.

Lemma filter_prefix_empty ks : filter (prefix "") ks = ks.
Proof.
  induction ks as [|k ks IH]; [reflexivity|]; simpl; rewrite prefix_empty, IH; reflexivity.
Qed.

(** [get_image_files] fails with [AttributeError] when no image has the
    identifier, with [S3ResponseError] when the image's bucket does not
    exist, and otherwise returns the objects of the bucket under the
    image's prefix; in every case it prints nothing and leaves the cloud
    unchanged. *)
Theorem get_image_files_outcomes image_id s :
  exists s' ev, trace s' = trace s ++ ev /\ Forall quiet ev /\ cloud s' = cloud s /\
    get_image_files image_id s =
      match hd_error (images_with_id image_id (cloud s)) with
      | None => Exc (AttributeError "'NoneType' object has no attribute 'location'") s'
      | Some img =>
          match lookup_bucket (bucket_name img) (buckets (cloud s)) with
          | None => Exc (S3ResponseError (bucket_name img)) s'
          | Some ks =>
              Ret (map (mkObj (bucket_name img)) (filter (prefix (image_prefix img)) ks)) s'
          end
      end.
Proof.
  destruct (get_image_files_cases image_id s) as [s' [C E]].
  destruct (get_image_files_quiet quiet (fun e H => H) image_id s) as [ev [T F]].
  exists s', ev; repeat split; auto.
  rewrite E in T; destruct (hd_error _) as [img|];
    [destruct (lookup_bucket _ _)|]; exact T.
Qed.

(** [list_image_files(image_id)] prints the key of every object
    [get_image_files] returns, in order, and nothing else; when
    [get_image_files] raises, it raises the same exception before printing
    anything. *)
Theorem list_image_files_prints image_id s :
  exists s' ev, Forall quiet ev /\ cloud s' = cloud s /\
    match hd_error (images_with_id image_id (cloud s)) with
    | None =>
        list_image_files image_id s
          = Exc (AttributeError "'NoneType' object has no attribute 'location'") s'
        /\ trace s' = trace s ++ ev
    | Some img =>
        match lookup_bucket (bucket_name img) (buckets (cloud s)) with
        | None => list_image_files image_id s = Exc (S3ResponseError (bucket_name img)) s'
                  /\ trace s' = trace s ++ ev
        | Some ks => list_image_files image_id s = Ret tt s'
                     /\ trace s' = trace s ++ ev ++ map EPrint (filter (prefix (image_prefix img)) ks)
        end
    end.
Proof.
  destruct (get_image_files_cases image_id s) as [s1 [C1 E1]].
  destruct (get_image_files_quiet quiet (fun e H => H) image_id s) as [ev [T F]].
  unfold list_image_files.
  destruct (hd_error (images_with_id image_id (cloud s))) as [img|].
  - destruct (lookup_bucket (bucket_name img) (buckets (cloud s))) as [ks|].
    + rewrite E1 in T; simpl in T.
      rewrite (bind_Ret _ _ _ _ _ E1), for_each_print.
      eexists; exists ev; refine (conj F (conj _ (conj eq_refl _))).
      * exact C1.
      * simpl; rewrite T, map_map, <- app_assoc; reflexivity.
    + rewrite E1 in T; simpl in T.
      exists s1, ev; rewrite (bind_Exc _ _ _ _ _ E1); auto.
  - rewrite E1 in T; simpl in T.
    exists s1, ev; rewrite (bind_Exc _ _ _ _ _ E1); auto.
Qed.

(** [EasyS3.list_bucket(name)] prints every key of the bucket, in order,
    whatever its name; when the bucket does not exist it raises
    [S3ResponseError] and prints nothing.  It never changes the cloud. *)
Theorem list_bucket_prints bucketname s :
  exists s' ev, Forall quiet ev /\ cloud s' = cloud s /\
    match lookup_bucket bucketname (buckets (cloud s)) with
    | None => list_bucket bucketname s = Exc (S3ResponseError bucketname) s'
              /\ trace s' = trace s ++ ev
    | Some ks => list_bucket bucketname s = Ret tt s'
                 /\ trace s' = trace s ++ ev ++ map EPrint ks
    end.
Proof.
  destruct (get_bucket_quiet quiet (fun e H => H) bucketname s) as [ev1 [T1 F1]].
  unfold list_bucket.
  destruct (lookup_bucket bucketname (buckets (cloud s))) as [ks|] eqn:Hb.
  - destruct (get_bucket_spec _ _ _ Hb) as [s1 [E1 C1]].
    rewrite E1 in T1; simpl in T1.
    rewrite (bind_Ret _ _ _ _ _ E1), (bind_Ret _ _ _ _ _ (bucket_list_run _ _ _)).
    cbn [cloud]; rewrite C1, Hb, for_each_print.
    eexists; exists (ev1 ++ [EListBucket bucketname ""]).
    refine (conj _ (conj _ (conj eq_refl _))).
    + apply Forall_app; split; [exact F1|repeat constructor].
    + reflexivity.
    + simpl; rewrite T1, map_map, filter_prefix_empty, <- !app_assoc; reflexivity.
  - destruct (get_bucket_missing _ _ Hb) as [s1 [E1 C1]].
    rewrite E1 in T1; simpl in T1.
    exists s1, ev1; rewrite (bind_Exc _ _ _ _ _ E1); auto.
Qed.

(** An image whose bucket does not exist: [remove_image_files] (at any
    depth, dry run or not) and [remove_image(id, pretend=False)] stop with
    [S3ResponseError] for the bucket, having deleted nothing, deregistered
    nothing and left the cloud unchanged. *)
Theorem remove_image_missing_bucket n image_name img pretend s :
  hd_error (images_with_id image_name (cloud s)) = Some img ->
  lookup_bucket (bucket_name img) (buckets (cloud s)) = None ->
  (exists s' ev, remove_image_files (S n) image_name pretend s
                 = Exc (S3ResponseError (bucket_name img)) s'
              /\ cloud s' = cloud s /\ trace s' = trace s ++ ev /\ Forall not_mutating ev) /\
  (exists s' ev, remove_image (S n) image_name false s
                 = Exc (S3ResponseError (bucket_name img)) s'
              /\ cloud s' = cloud s /\ trace s' = trace s ++ ev /\ Forall not_mutating ev).
Proof.
  intros Hi Hb.
  assert (Hfiles : forall p s0, hd_error (images_with_id image_name (cloud s0)) = Some img ->
            lookup_bucket (bucket_name img) (buckets (cloud s0)) = None ->
            exists s' ev, remove_image_files (S n) image_name p s0
                          = Exc (S3ResponseError (bucket_name img)) s'
                       /\ cloud s' = cloud s0 /\ trace s' = trace s0 ++ ev
                       /\ Forall not_mutating ev).
  { intros p s0 Hi0 Hb0.
    destruct (get_image_spec image_name s0) as [s1 [E1 C1]]; rewrite Hi0 in E1.
    destruct (get_image_quiet quiet (fun e H => H) image_name s0) as [ev1 [T1 F1]].
    rewrite E1 in T1; simpl in T1.
    destruct (get_image_files_cases image_name s1) as [s2 [C2 E2]].
    rewrite C1, Hi0, Hb0 in E2.
    destruct (get_image_files_quiet quiet (fun e H => H) image_name s1) as [ev2 [T2 F2]].
    rewrite E2 in T2; simpl in T2.
    exists s2, (ev1 ++ ev2); cbn [remove_image_files].
    rewrite (bind_Ret _ _ _ _ _ E1); cbn beta iota.
    rewrite (bind_Exc _ _ _ _ _ E2).
    split; [reflexivity|split; [congruence|split]].
    - rewrite T2, T1, app_assoc; reflexivity.
    - apply Forall_app; split; apply (Forall_impl _ quiet_not_mutating); assumption. }
  split; [apply Hfiles; auto|].
  destruct (get_image_spec image_name s) as [s1 [E1 C1]]; rewrite Hi in E1.
  destruct (get_image_quiet quiet (fun e H => H) image_name s) as [ev1 [T1 F1]].
  rewrite E1 in T1; simpl in T1.
  unfold remove_image; rewrite (bind_Ret _ _ _ _ _ E1); cbn beta iota.
  unfold log; rewrite bind_emit; cbn beta; rewrite bind_emit; cbn beta.
  match goal with |- exists _ _, bind _ _ ?st = _ /\ _ => set (sA := st) end.
  destruct (Hfiles false sA) as [s2 [ev2 [E2 [C2 [T2 F2]]]]];
    [change (cloud sA) with (cloud s1); rewrite C1; assumption .. |].
  exists s2, (ev1 ++ [ELog Info ("Removing AMI: " ++ image_name);
                      ELog Info "Removing image files..."] ++ ev2).
  rewrite (bind_Exc _ _ _ _ _ E2).
  split; [reflexivity|split; [rewrite C2; exact C1|split]].
  - rewrite T2; unfold sA; cbn [trace]; rewrite T1, <- !app_assoc; reflexivity.
  - repeat (apply Forall_app; split);
      [apply (Forall_impl _ quiet_not_mutating); exact F1 | repeat constructor | exact F2].
Qed.

(** ** Dry run of the file phase *)

Lemma for_each_dry_run l s :
  for_each (remove_file true) l s
  = Ret tt (mkState (ec2 s) (cache s) (_images s) (s3 s) (cloud s) (auth_calls s)
                    (trace s ++ map (fun f => EPrint (key_repr f)) l)).
Proof. exact (for_each_print key_repr l s). Qed.

(** For an existing image whose bucket exists, one level of
    [remove_image_files(id, pretend=True)] returns normally, whatever the
    depth allowed: it prints [str(key)] of each of the image's objects, in
    order, lists them again and, when there were any, logs that it would
    recurse and stops; it never changes the cloud. *)
Theorem remove_image_files_dry_run_prints n image_name img ks s :
  hd_error (images_with_id image_name (cloud s)) = Some img ->
  lookup_bucket (bucket_name img) (buckets (cloud s)) = Some ks ->
  let files := map (mkObj (bucket_name img)) (filter (prefix (image_prefix img)) ks) in
  exists s' ev1 ev2, remove_image_files (S n) image_name true s = Ret tt s'
    /\ cloud s' = cloud s
    /\ trace s' = trace s ++ ev1 ++ map (fun f => EPrint (key_repr f)) files ++ ev2
                  ++ (if Nat.eqb (List.length files) 0 then []
                      else [ELog Info "Not all files deleted, would recurse...exiting"])
    /\ Forall quiet (ev1 ++ ev2).
Proof.
  intros Hi Hb files.
  destruct (get_image_spec image_name s) as [s1 [E1 C1]]; rewrite Hi in E1.
  destruct (Emits_Ret _ _ _ _ _ (get_image_quiet _ (fun e H => H) image_name) E1)
    as [ev1 [T1 F1]].
  rewrite <- C1 in Hi, Hb.
  destruct (get_image_files_spec image_name img ks s1 Hi Hb) as [s2 [E2 C2]].
  destruct (Emits_Ret _ _ _ _ _ (get_image_files_quiet _ (fun e H => H) image_name) E2)
    as [ev2 [T2 F2]].
  rewrite <- C2 in Hi, Hb.
  match type of (for_each_dry_run files s2) with _ = Ret _ ?st => set (s3 := st) end.
  assert (Hi3 : hd_error (images_with_id image_name (cloud s3)) = Some img) by exact Hi.
  assert (Hb3 : lookup_bucket (bucket_name img) (buckets (cloud s3)) = Some ks) by exact Hb.
  destruct (get_image_files_spec image_name img ks s3 Hi3 Hb3) as [s4 [E4 C4]].
  destruct (Emits_Ret _ _ _ _ _ (get_image_files_quiet _ (fun e H => H) image_name) E4)
    as [ev4 [T4 F4]].
  cbn [remove_image_files].
  rewrite (bind_Ret _ _ _ _ _ E1); cbn beta iota.
  rewrite (bind_Ret _ _ _ _ _ E2); cbn beta.
  rewrite (bind_Ret _ _ _ _ _ (for_each_dry_run files s2)).
  rewrite (bind_Ret _ _ _ _ _ E4); cbn beta.
  fold files.
  assert (Ccl : cloud s4 = cloud s) by (rewrite C4; exact (eq_trans C2 C1)).
  destruct (Nat.eqb (List.length files) 0) eqn:L; cbn [negb].
  - exists s4, (ev1 ++ ev2), ev4; split; [reflexivity|split; [exact Ccl|split]].
    + rewrite T4; unfold s3; cbn [trace]; rewrite T2, T1, app_nil_r, <- !app_assoc.
      reflexivity.
    + repeat (apply Forall_app; split); auto.
  - eexists; exists (ev1 ++ ev2), ev4; split; [reflexivity|split; [exact Ccl|split]].
    + cbn [trace]; rewrite T4; unfold s3; cbn [trace]; rewrite T2, T1, <- !app_assoc.
      reflexivity.
    + repeat (apply Forall_app; split); auto.
Qed.

(** ** A store where every file can be deleted *)

Lemma filter_filter_and {A} (f g : A -> bool) l :
  filter f (filter g l) = filter (fun x => g x && f x) l.
Proof.
  induction l as [|x l IH]; [reflexivity|]; simpl.
  destruct (g x); simpl; [destruct (f x)|]; rewrite IH; reflexivity.
Qed.

Lemma filter_none {A} (f : A -> bool) l : (forall x, f x = false) -> filter f l = [].
Proof. intros H; induction l as [|x l IH]; simpl; [|rewrite H]; auto. Qed.

Lemma filter_notin_prefixed p ks :
  filter (fun x => negb (existsb (String.eqb x) (filter (prefix p) ks))) ks
  = filter (fun k => negb (prefix p k)) ks.
Proof.
  apply filter_ext_in; intros x Hx.
  destruct (prefix p x) eqn:Ep.
  - assert (E : existsb (String.eqb x) (filter (prefix p) ks) = true).
    { apply existsb_exists; exists x; split; [apply filter_In; auto|apply String.eqb_refl]. }
    rewrite E; reflexivity.
  - destruct (existsb (String.eqb x) (filter (prefix p) ks)) eqn:E; [|reflexivity].
    apply existsb_exists in E as [y [Hy Exy]].
    apply filter_In in Hy as [_ Hy]; apply String.eqb_eq in Exy; subst y; congruence.
Qed.

Lemma remove_file_deletable o s :
  is_undeletable (obj_bucket o) (obj_key o) (cloud s) = false ->
  remove_file false o s
  = Ret tt (mkState (ec2 s) (cache s) (_images s) (s3 s)
                    (mkCloud (images (cloud s))
                             (remove_key (obj_bucket o) (obj_key o) (buckets (cloud s)))
                             (undeletable (cloud s)) (account (cloud s)))
                    (auth_calls s)
                    (trace s ++ [EPrint ("removing file " ++ key_repr o)%string;
                                 EDeleteKey (obj_bucket o) (obj_key o)])).
Proof.
  intros H; unfold remove_file, key_delete; rewrite bind_emit.
  unfold bind, emit, gets, set_cloud; cbn [cloud trace]; rewrite H.
  rewrite <- app_assoc; reflexivity.
Qed.

Lemma remove_files_clean b L s :
  (forall k, In k L -> is_undeletable b k (cloud s) = false) ->
  exists s' ev, for_each (remove_file false) (map (mkObj b) L) s = Ret tt s'
    /\ images (cloud s') = images (cloud s)
    /\ undeletable (cloud s') = undeletable (cloud s)
    /\ account (cloud s') = account (cloud s)
    /\ (forall b', lookup_bucket b' (buckets (cloud s'))
                   = if String.eqb b b'
                     then option_map (filter (fun x => negb (existsb (String.eqb x) L)))
                                     (lookup_bucket b' (buckets (cloud s)))
                     else lookup_bucket b' (buckets (cloud s)))
    /\ trace s' = trace s ++ ev /\ count_deletes ev = List.length L
    /\ Forall no_deregister ev.
Proof.
  revert s; induction L as [|k L IH]; intros s Hu.
  - exists s, []; cbn [map for_each]; rewrite app_nil_r.
    refine (conj eq_refl (conj eq_refl (conj eq_refl (conj eq_refl (conj _ (conj eq_refl
              (conj eq_refl (Forall_nil _)))))))).
    intros b'; destruct (String.eqb b b'); [|reflexivity].
    destruct (lookup_bucket b' _) as [ks|]; simpl; [|reflexivity].
    f_equal; induction ks as [|x ks IHk]; simpl; [reflexivity|rewrite <- IHk; reflexivity].
  - cbn [map for_each].
    rewrite (bind_Ret _ _ _ _ _ (remove_file_deletable (mkObj b k) s (Hu k (or_introl eq_refl)))).
    match goal with |- exists _ _, for_each _ _ ?st = _ /\ _ => set (s1 := st) end.
    destruct (IH s1) as [s2 [ev [E2 [I2 [U2 [A2 [L2 [T2 [N2 F2]]]]]]]]];
      [intros k' Hk'; apply Hu; right; exact Hk'|].
    exists s2, ([EPrint ("removing file " ++ key_repr (mkObj b k))%string;
                 EDeleteKey b k] ++ ev).
    refine (conj E2 (conj I2 (conj U2 (conj A2 (conj _ (conj _ (conj _ _))))))).
    + intros b'; rewrite L2; unfold s1; cbn [cloud buckets].
      rewrite lookup_remove_key; cbn [obj_bucket obj_key].
      destruct (String.eqb b b'); [|reflexivity].
      destruct (lookup_bucket b' _) as [ks|]; simpl; [|reflexivity].
      f_equal; rewrite filter_filter_and; apply filter_ext; intros x.
      rewrite <- negb_orb; reflexivity.
    + rewrite T2; unfold s1; cbn [trace]; rewrite <- app_assoc; reflexivity.
    + rewrite count_deletes_app, N2; reflexivity.
    + apply Forall_app; split; [repeat constructor|exact F2].
Qed.

Lemma quiet_count_deletes ev : Forall quiet ev -> count_deletes ev = 0.
Proof.
  intros F; induction F as [|e ev He _ IH]; [reflexivity|].
  unfold count_deletes in *; destruct e; simpl in He |- *; tauto.
Qed.

Lemma quiet_no_deregister e : quiet e -> no_deregister e.
Proof. destruct e; simpl; tauto. Qed.

Lemma images_with_id_same_images n c c' :
  images c' = images c -> images_with_id n c' = images_with_id n c.
Proof. intros H; unfold images_with_id; rewrite H; reflexivity. Qed.

Lemma remove_image_files_clean n image_name img ks s :
  hd_error (images_with_id image_name (cloud s)) = Some img ->
  lookup_bucket (bucket_name img) (buckets (cloud s)) = Some ks ->
  (forall k, In k ks -> prefix (image_prefix img) k = true ->
             is_undeletable (bucket_name img) k (cloud s) = false) ->
  exists s' ev, remove_image_files (S n) image_name false s = Ret tt s'
    /\ images (cloud s') = images (cloud s)
    /\ (forall b, lookup_bucket b (buckets (cloud s'))
                  = if String.eqb (bucket_name img) b
                    then Some (filter (fun k => negb (prefix (image_prefix img) k)) ks)
                    else lookup_bucket b (buckets (cloud s)))
    /\ trace s' = trace s ++ ev
    /\ count_deletes ev = List.length (filter (prefix (image_prefix img)) ks)
    /\ Forall no_deregister ev.
Proof.
  intros Hi Hb Hu.
  destruct (get_image_spec image_name s) as [s1 [E1 C1]]; rewrite Hi in E1.
  destruct (Emits_Ret _ _ _ _ _ (get_image_quiet _ (fun e H => H) image_name) E1)
    as [ev1 [T1 F1]].
  rewrite <- C1 in Hi, Hb.
  destruct (get_image_files_spec image_name img ks s1 Hi Hb) as [s2 [E2 C2]].
  destruct (Emits_Ret _ _ _ _ _ (get_image_files_quiet _ (fun e H => H) image_name) E2)
    as [ev2 [T2 F2]].
  set (p := image_prefix img) in *; set (b := bucket_name img) in *.
  destruct (remove_files_clean b (filter (prefix p) ks) s2) as
      [s3 [ev3 [E3 [I3 [U3 [A3 [L3 [T3 [N3 F3]]]]]]]]].
  { intros k Hk; apply filter_In in Hk as [Hk Hp].
    rewrite C2, C1; apply Hu; auto. }
  assert (Hi3 : hd_error (images_with_id image_name (cloud s3)) = Some img).
  { rewrite (images_with_id_same_images _ _ _ I3); rewrite C2; exact Hi. }
  assert (Hb3 : lookup_bucket b (buckets (cloud s3))
                = Some (filter (fun k => negb (prefix p k)) ks)).
  { rewrite L3, String.eqb_refl, C2, Hb; simpl; rewrite filter_notin_prefixed; reflexivity. }
  destruct (get_image_files_spec image_name img _ s3 Hi3 Hb3) as [s4 [E4 C4]].
  destruct (Emits_Ret _ _ _ _ _ (get_image_files_quiet _ (fun e H => H) image_name) E4)
    as [ev4 [T4 F4]].
  assert (Hnil : filter (prefix (image_prefix img)) (filter (fun k => negb (prefix p k)) ks) = []).
  { rewrite filter_filter_and; apply filter_none; intros x.
    unfold p; destruct (prefix (image_prefix img) x); reflexivity. }
  rewrite Hnil in E4; cbn [map] in E4.
  cbn [remove_image_files].
  rewrite (bind_Ret _ _ _ _ _ E1); cbn beta iota.
  rewrite (bind_Ret _ _ _ _ _ E2); cbn beta.
  rewrite (bind_Ret _ _ _ _ _ E3).
  rewrite (bind_Ret _ _ _ _ _ E4); cbn beta.
  exists s4, (ev1 ++ ev2 ++ ev3 ++ ev4).
  split; [reflexivity|split; [|split; [|split; [|split]]]].
  - rewrite C4, I3, C2, C1; reflexivity.
  - intros b'; rewrite C4, L3, C2, C1.
    destruct (String.eqb_spec b b') as [<-|_]; [|reflexivity].
    rewrite <- C1, Hb; simpl; rewrite filter_notin_prefixed; reflexivity.
  - rewrite T4, T3, T2, T1, !app_assoc; reflexivity.
  - rewrite !count_deletes_app, (quiet_count_deletes _ F1), (quiet_count_deletes _ F2),
      (quiet_count_deletes _ F4), N3; lia.
  - repeat (apply Forall_app; split); auto; apply (Forall_impl _ quiet_no_deregister); auto.
Qed.

(** An existing image whose bucket exists and none of whose files resists
    deletion: one level of [remove_image_files(id, pretend=False)] returns
    normally, having issued one delete per object under the image's prefix.
    Afterwards the image's bucket holds exactly its former keys without
    that prefix, every other bucket and the image registry are unchanged,
    and nothing was deregistered. *)
Theorem remove_image_files_clean_store n image_name img ks s :
  hd_error (images_with_id image_name (cloud s)) = Some img ->
  lookup_bucket (bucket_name img) (buckets (cloud s)) = Some ks ->
  (forall k, In k ks -> prefix (image_prefix img) k = true ->
             is_undeletable (bucket_name img) k (cloud s) = false) ->
  exists s' ev, remove_image_files (S n) image_name false s = Ret tt s'
    /\ images (cloud s') = images (cloud s)
    /\ (forall b, lookup_bucket b (buckets (cloud s'))
                  = if String.eqb (bucket_name img) b
                    then Some (filter (fun k => negb (prefix (image_prefix img) k)) ks)
                    else lookup_bucket b (buckets (cloud s)))
    /\ trace s' = trace s ++ ev
    /\ count_deletes ev = List.length (filter (prefix (image_prefix img)) ks)
    /\ Forall no_deregister ev.
Proof. apply remove_image_files_clean. Qed.

Lemma images_with_id_hd image_name img c :
  hd_error (images_with_id image_name c) = Some img -> id img = image_name.
Proof.
  unfold images_with_id; intros H.
  destruct (filter _ (images c)) as [|i l] eqn:E; [discriminate|].
  injection H as <-.
  assert (Hin : In i (filter (fun i => String.eqb (id i) image_name) (images c)))
    by (rewrite E; left; reflexivity).
  apply filter_In in Hin as [_ Hin]; apply String.eqb_eq; exact Hin.
Qed.

(** [remove_image(id, pretend=False)] on an existing image whose bucket
    exists and whose files can all be deleted returns normally: the bucket
    keeps exactly its keys without the image's prefix, every image with
    that identifier (and no other) leaves the registry, the run issues one
    delete per object under the prefix and ends with the deregistration,
    the only one it issues. *)
Theorem remove_image_clean_store n image_name img ks s :
  hd_error (images_with_id image_name (cloud s)) = Some img ->
  lookup_bucket (bucket_name img) (buckets (cloud s)) = Some ks ->
  (forall k, In k ks -> prefix (image_prefix img) k = true ->
             is_undeletable (bucket_name img) k (cloud s) = false) ->
  exists s' ev, remove_image (S n) image_name false s = Ret tt s'
    /\ images (cloud s') = filter (fun i => negb (String.eqb (id i) image_name)) (images (cloud s))
    /\ (forall b, lookup_bucket b (buckets (cloud s'))
                  = if String.eqb (bucket_name img) b
                    then Some (filter (fun k => negb (prefix (image_prefix img) k)) ks)
                    else lookup_bucket b (buckets (cloud s)))
    /\ trace s' = trace s ++ ev ++ [EDeregister image_name]
    /\ count_deletes ev = List.length (filter (prefix (image_prefix img)) ks)
    /\ Forall no_deregister ev.
Proof.
  intros Hi Hb Hu.
  pose proof (images_with_id_hd _ _ _ Hi) as Hid; subst image_name.
  destruct (get_image_spec (id img) s) as [s1 [E1 C1]]; rewrite Hi in E1.
  destruct (Emits_Ret _ _ _ _ _ (get_image_quiet _ (fun e H => H) (id img)) E1)
    as [ev1 [T1 F1]].
  unfold remove_image; rewrite (bind_Ret _ _ _ _ _ E1); cbn beta iota.
  unfold log; rewrite bind_emit; cbn beta; rewrite bind_emit; cbn beta.
  match goal with |- exists _ _, bind _ _ ?st = _ /\ _ => set (sA := st) end.
  assert (CA : cloud sA = cloud s) by exact C1.
  destruct (remove_image_files_clean n (id img) img ks sA)
    as [s4 [ev4 [E4 [I4 [L4 [T4 [N4 F4]]]]]]]; rewrite ?CA; auto.
  rewrite (bind_Ret _ _ _ _ _ E4); cbn beta zeta iota.
  rewrite bind_emit; cbn beta.
  unfold deregister_image.
  match goal with |- exists _ _, bind _ _ ?st = _ /\ _ => set (sB := st) end.
  destruct (conn_spec EC2 sB) as [h [s5 [E5 C5]]].
  destruct (Emits_Ret _ _ _ _ _ (conn_quiet _ (fun e H => H) EC2) E5) as [ev5 [T5 F5]].
  rewrite (bind_Ret _ _ _ _ _ E5); cbn beta.
  rewrite bind_emit; unfold bind, gets, set_cloud; cbn.
  eexists; exists (ev1 ++ [ELog Info ("Removing AMI: " ++ id img)%string;
                           ELog Info "Removing image files..."] ++ ev4
                   ++ [ELog Info ("Deregistering ami: " ++ id img)%string] ++ ev5).
  split; [reflexivity|split; [|split; [|split; [|split]]]].
  - rewrite C5; change (cloud sB) with (cloud s4); rewrite I4, CA; reflexivity.
  - intros b; rewrite C5; change (cloud sB) with (cloud s4); rewrite L4, CA; reflexivity.
  - rewrite T5; unfold sB; cbn [trace]; rewrite T4; unfold sA; cbn [trace].
    rewrite T1; rewrite <- !app_assoc; reflexivity.
  - rewrite !count_deletes_app, (quiet_count_deletes _ F1), (quiet_count_deletes _ F5), N4.
    cbn; lia.
  - apply Forall_app; split; [apply (Forall_impl _ quiet_no_deregister); exact F1|].
    apply Forall_app; split; [repeat constructor|].
    apply Forall_app; split; [exact F4|].
    apply Forall_app; split; [repeat constructor|].
    apply (Forall_impl _ quiet_no_deregister); exact F5.
Qed.

(** ** What the file phase never touches *)

Section KeepsRules.

Context {T : Type} (f : Cloud -> T).

Lemma Keeps_ret {A} (a : A) : Keeps f (ret a).
Proof. intros s; reflexivity. Qed.

Lemma Keeps_raise {A} (e : exn) : Keeps f (@raise A e).
Proof. intros s; reflexivity. Qed.

Lemma Keeps_stop {A} : Keeps f (fun s => @OutOfFuel A s).
Proof. intros s; reflexivity. Qed.

Lemma Keeps_gets {A} (g : State -> A) : Keeps f (gets g).
Proof. intros s; reflexivity. Qed.

Lemma Keeps_emit e : Keeps f (emit e).
Proof. intros s; reflexivity. Qed.

Lemma Keeps_set_images v : Keeps f (set_images v).
Proof. intros s; reflexivity. Qed.

Lemma Keeps_set_obj svc o : Keeps f (set_obj svc o).
Proof. intros s; destruct svc; reflexivity. Qed.

Lemma Keeps_authenticate svc key secret : Keeps f (authenticate svc key secret).
Proof. intros s; reflexivity. Qed.

Lemma Keeps_bind {A B} (m : M A) (k : A -> M B) :
  Keeps f m -> (forall a, Keeps f (k a)) -> Keeps f (bind m k).
Proof.
  intros Hm Hk s; unfold bind; specialize (Hm s).
  destruct (m s) as [a s'|e s'|s']; simpl in *; auto.
  rewrite Hk; exact Hm.
Qed.

Lemma Keeps_for_each {A} (g : A -> M unit) l :
  (forall x, Keeps f (g x)) -> Keeps f (for_each g l).
Proof.
  intros Hg; induction l as [|x l IH]; simpl; [apply Keeps_ret|].
  apply Keeps_bind; auto.
Qed.

End KeepsRules.

Ltac keeps_step :=
  match goal with
  | |- Keeps _ (bind _ _) => apply Keeps_bind; [| intros ?]
  | |- Keeps _ (ret _) => apply Keeps_ret
  | |- Keeps _ (raise _) => apply Keeps_raise
  | |- Keeps _ (fun s => OutOfFuel s) => apply Keeps_stop
  | |- Keeps _ (gets _) => apply Keeps_gets
  | |- Keeps _ (emit _) => apply Keeps_emit
  | |- Keeps _ (log _ _) => apply Keeps_emit
  | |- Keeps _ (set_images _) => apply Keeps_set_images
  | |- Keeps _ (set_obj _ _) => apply Keeps_set_obj
  | |- Keeps _ (authenticate _ _ _) => apply Keeps_authenticate
  | |- Keeps _ (for_each _ _) => apply Keeps_for_each; intros ?
  | |- Keeps _ (match ?x with _ => _ end) => destruct x
  | |- Keeps _ (if ?x then _ else _) => destruct x
  end.

Section ReadOnlyCloud.

Context {T : Type} (f : Cloud -> T).

Lemma conn_keeps svc : Keeps f (conn svc).
Proof. unfold conn; repeat keeps_step. Qed.

Lemma get_image_keeps image_id : Keeps f (get_image image_id).
Proof.
  unfold get_image, get_all_images; repeat (keeps_step || apply conn_keeps).
Qed.

Lemma get_image_files_keeps image_id : Keeps f (get_image_files image_id).
Proof.
  unfold get_image_files, get_bucket, bucket_list.
  repeat (keeps_step || apply conn_keeps || apply get_image_keeps).
Qed.

End ReadOnlyCloud.

Lemma key_delete_keeps_images o : Keeps images (key_delete o).
Proof.
  intros s; unfold key_delete, bind, emit, gets, ret, set_cloud; cbn.
  destruct (is_undeletable _ _ _); reflexivity.
Qed.

Lemma remove_image_files_keeps {T} (f : Cloud -> T) fuel image_name :
  Keeps f (remove_image_files fuel image_name true).
Proof.
  induction fuel as [|fuel IH]; simpl; [apply Keeps_stop|].
  repeat (keeps_step || apply get_image_keeps || apply get_image_files_keeps || apply IH
          || (unfold remove_file; apply Keeps_emit)).
Qed.

Lemma remove_image_files_keeps_images fuel image_name pretend :
  Keeps images (remove_image_files fuel image_name pretend).
Proof.
  induction fuel as [|fuel IH]; simpl; [apply Keeps_stop|].
  repeat (keeps_step || apply get_image_keeps || apply get_image_files_keeps || apply IH
          || (unfold remove_file; repeat (keeps_step || apply key_delete_keeps_images))).
Qed.

(** Whatever its outcome (return, exception or recursion still running),
    [remove_image_files] never changes the image registry; with
    [pretend=True], neither it nor [remove_image] changes the cloud at
    all. *)
Theorem file_phase_keeps_registry fuel image_name pretend s :
  images (cloud (state_of (remove_image_files fuel image_name pretend s))) = images (cloud s)
  /\ cloud (state_of (remove_image_files fuel image_name true s)) = cloud s
  /\ cloud (state_of (remove_image fuel image_name true s)) = cloud s.
Proof.
  split; [apply remove_image_files_keeps_images|split].
  - apply (remove_image_files_keeps (fun c => c)).
  - revert s; change (Keeps (fun c => c) (remove_image fuel image_name true)).
    unfold remove_image.
    repeat (keeps_step || apply get_image_keeps || apply remove_image_files_keeps).
Qed.

(** ** The [registered_images] cache *)

Lemma conn_fields svc s :
  exists h s', conn svc s = Ret h s' /\ cloud s' = cloud s
            /\ cache s' = cache s /\ _images s' = _images s.
Proof.
  unfold conn, bind, gets.
  destruct (_conn (obj_of svc s)) as [h|]; simpl.
  - eauto 6.
  - destruct svc; simpl; eauto 6.
Qed.

Lemma get_all_images_fields f s :
  exists s', get_all_images f s
             = Ret (filter (image_matches f (account (cloud s))) (images (cloud s))) s'
          /\ cloud s' = cloud s /\ cache s' = cache s /\ _images s' = _images s.
Proof.
  destruct (conn_fields EC2 s) as [h [s1 [E1 [C1 [K1 I1]]]]].
  unfold get_all_images; rewrite (bind_Ret _ _ _ _ _ E1).
  unfold bind, emit, gets, ret; simpl; rewrite <- C1; eauto.
Qed.

Lemma registered_images_refresh s :
  cache s = false \/ _images s = None ->
  let l := filter (image_matches (ByOwners ["self"]) (account (cloud s))) (images (cloud s)) in
  exists s', registered_images s = Ret l s'
          /\ cloud s' = cloud s /\ cache s' = cache s /\ _images s' = Some l.
Proof.
  intros H l.
  destruct (get_all_images_fields (ByOwners ["self"]) s) as [s1 [E1 [C1 [K1 I1]]]].
  assert (R : registered_images s
              = (imgs <- get_all_images (ByOwners ["self"]) ;;
                 set_images (Some imgs) ;;; ret imgs) s).
  { unfold registered_images, bind at 1 2, gets.
    destruct H as [H|H]; rewrite H; [reflexivity|].
    destruct (cache s); reflexivity. }
  rewrite R, (bind_Ret _ _ _ _ _ E1).
  unfold bind, set_images, ret; simpl; eexists; eauto.
Qed.

Lemma registered_images_cached s l :
  cache s = true -> _images s = Some l -> registered_images s = Ret l s.
Proof. intros H1 H2; unfold registered_images, bind, gets; rewrite H1, H2; reflexivity. Qed.

Lemma deregister_fields ami s :
  exists s', deregister_image ami s = Ret tt s'
    /\ images (cloud s') = filter (fun i => negb (String.eqb (id i) ami)) (images (cloud s))
    /\ account (cloud s') = account (cloud s)
    /\ cache s' = cache s /\ _images s' = _images s.
Proof.
  destruct (conn_fields EC2 s) as [h [s1 [E1 [C1 [K1 I1]]]]].
  unfold deregister_image; rewrite (bind_Ret _ _ _ _ _ E1), bind_emit.
  unfold bind, gets, set_cloud; simpl; rewrite C1; eexists; eauto.
Qed.

Lemma find_removed ami owner_ok l :
  find (fun i => String.eqb (id i) ami)
       (filter owner_ok (filter (fun i => negb (String.eqb (id i) ami)) l)) = None.
Proof.
  destruct (find _ _) as [x|] eqn:E; [|reflexivity].
  apply find_some in E as [Hin Hx].
  apply filter_In in Hin as [Hin _]; apply filter_In in Hin as [_ Hn].
  rewrite Hx in Hn; discriminate.
Qed.

(** With [cache=True], [get_registered_image] keeps answering from the
    list read on its first call: after the image is deregistered through
    the same object, a second lookup still returns it.  With
    [cache=False] the second lookup reads the registry again and returns
    [None].  In both cases the registry no longer holds the image. *)
Theorem get_registered_image_stale_cache image_id img s :
  startswith image_id "ami" = true -> String.length image_id = 12 ->
  _images s = None ->
  find (fun i => String.eqb (id i) image_id)
       (filter (image_matches (ByOwners ["self"]) (account (cloud s))) (images (cloud s)))
    = Some img ->
  exists s', lookup_deregister_lookup image_id s = Ret (if cache s then Some img else None) s'
          /\ images_with_id image_id (cloud s') = [].
Proof.
  intros H1 H2 H3 H4.
  assert (G : forall s0, get_registered_image image_id s0
                         = bind registered_images
                                (fun imgs => ret (find (fun i => String.eqb (id i) image_id) imgs)) s0)
    by (intros s0; unfold get_registered_image; rewrite H1, H2; reflexivity).
  destruct (registered_images_refresh s (or_intror H3)) as [s1 [R1 [C1 [K1 I1]]]].
  unfold lookup_deregister_lookup.
  rewrite (bind_Ret _ _ _ _ _ (eq_trans (G s) (bind_Ret _ _ _ _ _ R1))).
  destruct (deregister_fields image_id s1) as [s2 [E2 [M2 [A2 [K2 I2]]]]].
  rewrite (bind_Ret _ _ _ _ _ E2), G.
  assert (Hnil : images_with_id image_id (cloud s2) = []).
  { unfold images_with_id; rewrite M2, filter_filter_and; apply filter_none.
    intros i; destruct (String.eqb (id i) image_id); reflexivity. }
  destruct (cache s) eqn:Hc.
  - rewrite (bind_Ret _ _ _ _ _ (registered_images_cached s2 _ (eq_trans K2 K1) (eq_trans I2 I1))).
    exists s2; split; [|exact Hnil].
    unfold ret; rewrite H4; reflexivity.
  - destruct (registered_images_refresh s2 (or_introl (eq_trans K2 K1)))
      as [s3 [R3 [C3 _]]].
    rewrite (bind_Ret _ _ _ _ _ R3).
    exists s3; split; [|rewrite C3; exact Hnil].
    unfold ret; rewrite M2, A2, C1, find_removed; reflexivity.
Qed.

(** ** [get_image_name] *)

Lemma string_app_nil_r s : (s ++ "")%string = s.
Proof. induction s as [|c s IH]; simpl; [reflexivity|rewrite IH; reflexivity]. Qed.

Lemma string_app_assoc a b c : ((a ++ b) ++ c)%string = (a ++ (b ++ c))%string.
Proof. induction a as [|x a IH]; simpl; [reflexivity|rewrite IH; reflexivity]. Qed.

Lemma contains_slash_cons x r :
  contains "/" (String x r) = false -> Ascii.eqb x "/"%char = false /\ contains "/" r = false.
Proof.
  simpl; intros H; apply orb_false_iff in H as [Hp Hc]; split; [|exact Hc].
  destruct (ascii_dec "/"%char x) as [<-|Hx]; [destruct r; discriminate|].
  apply Ascii.eqb_neq; congruence.
Qed.

Lemma py_split_char_from_plain acc r :
  contains "/" r = false -> py_split_char_from "/"%char acc r = [(acc ++ r)%string].
Proof.
  revert acc; induction r as [|x r IH]; intros acc H; simpl.
  - rewrite string_app_nil_r; reflexivity.
  - apply contains_slash_cons in H as [Hx Hr]; rewrite Hx, IH by exact Hr.
    rewrite string_app_assoc; reflexivity.
Qed.

Lemma py_split_char_from_slash acc b r :
  contains "/" b = false ->
  py_split_char_from "/"%char acc (b ++ String "/" r)
  = (acc ++ b)%string :: py_split_char_from "/"%char "" r.
Proof.
  revert acc; induction b as [|x b IH]; intros acc H; simpl.
  - rewrite string_app_nil_r; reflexivity.
  - apply contains_slash_cons in H as [Hx Hb]; rewrite Hx, IH by exact Hb.
    rewrite string_app_assoc; reflexivity.
Qed.

Lemma basename_from_plain acc r :
  contains "/" r = false -> basename_from acc r = (acc ++ r)%string.
Proof.
  revert acc; induction r as [|x r IH]; intros acc H; simpl.
  - rewrite string_app_nil_r; reflexivity.
  - apply contains_slash_cons in H as [Hx Hr]; rewrite Hx, IH by exact Hr.
    rewrite string_app_assoc; reflexivity.
Qed.

Lemma basename_from_slash acc b r :
  contains "/" b = false ->
  basename_from acc (b ++ String "/" r) = basename_from "" r.
Proof.
  revert acc; induction b as [|x b IH]; intros acc H; simpl.
  - reflexivity.
  - apply contains_slash_cons in H as [Hx Hb]; rewrite Hx; apply IH; exact Hb.
Qed.

(** [get_image_name] raises [IndexError] when the location has no ['/'].
    When the location is [bucket/rest] with a single ['/'], the name it
    gives (the one [list_registered_images] prints) is the key prefix
    [get_image_files] and [remove_image_files] use for the image's
    files. *)
Theorem get_image_name_matches_prefix img :
  (contains "/" (location img) = false -> get_image_name img = None) /\
  (forall b r, location img = (b ++ "/" ++ r)%string ->
     contains "/" b = false -> contains "/" r = false ->
     get_image_name img = Some (image_prefix img)).
Proof.
  split.
  - intros H; unfold get_image_name, py_split_char.
    rewrite py_split_char_from_plain by exact H; reflexivity.
  - intros b r Hl Hb Hr.
    unfold get_image_name, py_split_char, image_prefix, basename; rewrite Hl; simpl.
    rewrite py_split_char_from_slash, py_split_char_from_plain by assumption.
    rewrite basename_from_slash, basename_from_plain by assumption.
    reflexivity.
Qed.

(** ** Security groups *)

Lemma xbind_XRet {A B} (m : XM A) (k : A -> XM B) xs a xs' :
  m xs = XRet a xs' -> xbind m k xs = k a xs'.
Proof. intros E; unfold xbind; rewrite E; reflexivity. Qed.

Lemma xbind_XExc {A B} (m : XM A) (k : A -> XM B) xs e xs' :
  m xs = XExc e xs' -> xbind m k xs = XExc e xs'.
Proof. intros E; unfold xbind; rewrite E; reflexivity. Qed.

Lemma lift_Ret {A} (m : M A) xs a s' :
  m (base xs) = Ret a s' -> lift m xs = XRet a (mkXState s' (groups xs) (xtrace xs)).
Proof. intros E; unfold lift; rewrite E; reflexivity. Qed.

Lemma lift_Exc {A} (m : M A) xs e s' :
  m (base xs) = Exc e s' -> lift m xs = XExc (PyExc e) (mkXState s' (groups xs) (xtrace xs)).
Proof. intros E; unfold lift; rewrite E; reflexivity. Qed.

Lemma get_all_security_groups_run names xs :
  exists s', get_all_security_groups names xs
    = if forallb (group_exists (groups xs)) names
      then XRet (filter (fun g => existsb (String.eqb (sg_name g)) names) (groups xs))
                (mkXState s' (groups xs) (xtrace xs ++ [XDescribeGroups names]))
      else XExc (EC2ResponseError "InvalidGroup.NotFound")
                (mkXState s' (groups xs) (xtrace xs ++ [XDescribeGroups names])).
Proof.
  destruct (conn_spec EC2 (base xs)) as [h [s1 [E1 _]]].
  exists s1; unfold get_all_security_groups.
  rewrite (xbind_XRet _ _ _ _ _ (lift_Ret _ _ _ _ E1)).
  unfold xbind, xemit, xgets; simpl.
  destruct (forallb _ names); reflexivity.
Qed.

Lemma create_security_group_run name description xs :
  group_exists (groups xs) name = false ->
  exists s', create_security_group name description xs
    = XRet (mkGroup name description [])
           (mkXState s' (groups xs ++ [mkGroup name description []])
                     (xtrace xs ++ [XCreateGroup name description])).
Proof.
  intros H; destruct (conn_spec EC2 (base xs)) as [h [s1 [E1 _]]].
  exists s1; unfold create_security_group.
  rewrite (xbind_XRet _ _ _ _ _ (lift_Ret _ _ _ _ E1)).
  unfold xbind, xemit, xgets; simpl; rewrite H; reflexivity.
Qed.

Lemma authorize_run sg r xs :
  authorize sg r xs
  = XRet (mkGroup (sg_name sg) (sg_description sg) (sg_rules sg ++ [r]))
         (mkXState (base xs) (add_rule (sg_name sg) r (groups xs)) (xtrace xs ++ [XAuthorize (sg_name sg) r])).
Proof. reflexivity. Qed.

Lemma add_rule_fresh name r description rs gs :
  group_exists gs name = false ->
  add_rule name r (gs ++ [mkGroup name description rs])
  = gs ++ [mkGroup name description (rs ++ [r])].
Proof.
  intros H; unfold add_rule; rewrite map_app; simpl; rewrite String.eqb_refl; f_equal.
  unfold group_exists in H.
  induction gs as [|g gs IH]; simpl; [reflexivity|].
  simpl in H; apply orb_false_iff in H as [H1 H2]; rewrite H1, IH by exact H2; reflexivity.
Qed.

Lemma find_fresh name g gs :
  group_exists gs name = false -> sg_name g = name ->
  find (fun g => String.eqb (sg_name g) name) (gs ++ [g]) = Some g.
Proof.
  intros H Hg; unfold group_exists in H; induction gs as [|g' gs IH]; simpl.
  - rewrite Hg, String.eqb_refl; reflexivity.
  - simpl in H; apply orb_false_iff in H as [H1 H2]; rewrite H1; auto.
Qed.

Lemma group_exists_app_fresh name g gs :
  sg_name g = name -> group_exists (gs ++ [g]) name = true.
Proof.
  intros Hg; unfold group_exists; rewrite existsb_app; simpl.
  rewrite Hg, String.eqb_refl, orb_true_r; reflexivity.
Qed.

Lemma filter_one_name name gs :
  hd_error (filter (fun g => existsb (String.eqb (sg_name g)) [name]) gs)
  = find (fun g => String.eqb (sg_name g) name) gs.
Proof.
  induction gs as [|g gs IH]; simpl; [reflexivity|].
  rewrite orb_false_r; destruct (String.eqb (sg_name g) name); auto.
Qed.

Lemma get_or_create_group_found name description auth_ssh auth_group_traffic xs :
  group_exists (groups xs) name = true ->
  exists g xs', get_or_create_group name description auth_ssh auth_group_traffic xs
                = XRet (Some g) xs'
    /\ find (fun g => String.eqb (sg_name g) name) (groups xs) = Some g
    /\ groups xs' = groups xs /\ xtrace xs' = xtrace xs ++ [XDescribeGroups [name]].
Proof.
  intros H.
  destruct (get_all_security_groups_run [name] xs) as [s1 E1].
  cbn [forallb] in E1; rewrite H in E1; cbn [andb] in E1.
  unfold get_or_create_group, try_ec2; rewrite (xbind_XRet _ _ _ _ _ E1).
  pose proof (filter_one_name name (groups xs)) as Hf.
  destruct (filter _ (groups xs)) as [|g rest].
  - exfalso; unfold group_exists in H; apply existsb_exists in H as [x [Hx Ex]].
    symmetry in Hf; simpl in Hf.
    rewrite (find_none _ _ Hf x Hx) in Ex; discriminate.
  - exists g; eexists; split; [reflexivity|]; split; [symmetry; exact Hf|auto].
Qed.

Lemma get_or_create_group_new name description (auth_ssh auth_group_traffic : bool) xs :
  group_exists (groups xs) name = false -> name <> "" ->
  let g := mkGroup name description
             ((if auth_ssh then [RCidr "tcp" 22 22 "0.0.0.0/0"] else [])
              ++ (if auth_group_traffic then [RGroup name] else [])) in
  exists xs', get_or_create_group name description auth_ssh auth_group_traffic xs
              = XRet (Some g) xs'
    /\ groups xs' = groups xs ++ [g]
    /\ xtrace xs' = xtrace xs ++ [XDescribeGroups [name]; XCreateGroup name description]
                    ++ (if auth_ssh then [XAuthorize name (RCidr "tcp" 22 22 "0.0.0.0/0")]
                        else [])
                    ++ (if auth_group_traffic then [XAuthorize name (RGroup name)] else []).
Proof.
  intros H Hn g.
  destruct (get_all_security_groups_run [name] xs) as [s1 E1].
  cbn [forallb] in E1; rewrite H in E1; cbn [andb] in E1.
  unfold get_or_create_group, try_ec2; rewrite (xbind_XExc _ _ _ _ _ E1).
  rewrite (proj2 (String.eqb_neq name "") Hn).
  match goal with |- exists _, xbind (lift ?m) _ ?st = _ /\ _ =>
    rewrite (xbind_XRet _ _ st _ _ (lift_Ret m st _ _ eq_refl)) end.
  match goal with |- exists _, xbind (create_security_group _ _) _ ?st = _ /\ _ =>
    destruct (create_security_group_run name description st H) as [s3 E3] end.
  rewrite (xbind_XRet _ _ _ _ _ E3); cbn beta.
  unfold g; destruct auth_ssh, auth_group_traffic;
    repeat (rewrite (xbind_XRet _ _ _ _ _ (authorize_run _ _ _)); cbn beta;
            cbn [sg_name sg_description sg_rules groups xtrace]);
    unfold xbind, xret; cbn [sg_name sg_description sg_rules groups xtrace];
    rewrite ?add_rule_fresh by (exact H);
    eexists; (split; [reflexivity|]);
    cbn [groups xtrace sg_name sg_description sg_rules app];
    rewrite ?add_rule_fresh by (exact H); rewrite <- ?app_assoc; auto.
Qed.

(** [get_or_create_group] on the name of an existing group returns that
    group (the first with the name), whatever the description and flags:
    it creates and authorizes nothing. *)
Theorem get_or_create_group_existing name description auth_ssh auth_group_traffic xs :
  group_exists (groups xs) name = true ->
  exists g xs', get_or_create_group name description auth_ssh auth_group_traffic xs
                = XRet (Some g) xs'
    /\ find (fun g => String.eqb (sg_name g) name) (groups xs) = Some g
    /\ groups xs' = groups xs /\ xtrace xs' = xtrace xs ++ [XDescribeGroups [name]].
Proof. apply get_or_create_group_found. Qed.

(** For a non-empty name that is not a group, [get_or_create_group]
    creates one group with that name and description, authorizes TCP port
    22 from anywhere only when [auth_ssh] is set and traffic from the group
    itself only when [auth_group_traffic] is set (in that order), and
    returns the group with exactly these rules. *)
Theorem get_or_create_group_creates name description (auth_ssh auth_group_traffic : bool) xs :
  group_exists (groups xs) name = false -> name <> "" ->
  let g := mkGroup name description
             ((if auth_ssh then [RCidr "tcp" 22 22 "0.0.0.0/0"] else [])
              ++ (if auth_group_traffic then [RGroup name] else [])) in
  exists xs', get_or_create_group name description auth_ssh auth_group_traffic xs
              = XRet (Some g) xs'
    /\ groups xs' = groups xs ++ [g]
    /\ xtrace xs' = xtrace xs ++ [XDescribeGroups [name]; XCreateGroup name description]
                    ++ (if auth_ssh then [XAuthorize name (RCidr "tcp" 22 22 "0.0.0.0/0")]
                        else [])
                    ++ (if auth_group_traffic then [XAuthorize name (RGroup name)] else []).
Proof. apply get_or_create_group_new. Qed.

(** With an empty name that is not a group, [get_or_create_group] returns
    [None] after the failed lookup and creates nothing. *)
Theorem get_or_create_group_empty_name description auth_ssh auth_group_traffic xs :
  group_exists (groups xs) "" = false ->
  exists xs', get_or_create_group "" description auth_ssh auth_group_traffic xs = XRet None xs'
    /\ groups xs' = groups xs /\ xtrace xs' = xtrace xs ++ [XDescribeGroups [""]].
Proof.
  intros H.
  destruct (get_all_security_groups_run [""] xs) as [s1 E1].
  cbn [forallb] in E1; rewrite H in E1; cbn [andb] in E1.
  unfold get_or_create_group, try_ec2; rewrite (xbind_XExc _ _ _ _ _ E1).
  eexists; split; [reflexivity|auto].
Qed.

(** [get_or_create_group] is idempotent: once it has created a group, a
    second call with the same name returns the same group without creating
    or authorizing anything, and [get_security_group] returns it too. *)
Theorem get_or_create_group_idempotent name description (auth_ssh auth_group_traffic : bool) xs :
  group_exists (groups xs) name = false -> name <> "" ->
  let g := mkGroup name description
             ((if auth_ssh then [RCidr "tcp" 22 22 "0.0.0.0/0"] else [])
              ++ (if auth_group_traffic then [RGroup name] else [])) in
  exists xs1 xs', create_then_get name description auth_ssh auth_group_traffic xs
                  = XRet (Some g, Some g, g) xs'
    /\ get_or_create_group name description auth_ssh auth_group_traffic xs = XRet (Some g) xs1
    /\ groups xs' = groups xs ++ [g]
    /\ xtrace xs' = xtrace xs1 ++ [XDescribeGroups [name]; XDescribeGroups [name]].
Proof.
  intros H Hn g.
  destruct (get_or_create_group_new name description auth_ssh auth_group_traffic xs H Hn)
    as [xs1 [E1 [G1 T1]]].
  fold g in E1, G1.
  assert (Hex : group_exists (groups xs1) name = true)
    by (rewrite G1; apply group_exists_app_fresh; reflexivity).
  assert (Hfind : find (fun g => String.eqb (sg_name g) name) (groups xs1) = Some g)
    by (rewrite G1; apply find_fresh; [exact H|reflexivity]).
  destruct (get_or_create_group_found name description auth_ssh auth_group_traffic xs1 Hex)
    as [g2 [xs2 [E2 [F2 [G2 T2]]]]].
  rewrite Hfind in F2; injection F2 as <-.
  destruct (get_all_security_groups_run [name] xs2) as [s3 E3].
  cbn [forallb] in E3; rewrite G2, Hex in E3; cbn [andb] in E3.
  pose proof (filter_one_name name (groups xs1)) as Hf; rewrite Hfind in Hf.
  destruct (filter _ (groups xs1)) as [|g3 rest]; [discriminate|injection Hf as ->].
  unfold create_then_get.
  rewrite (xbind_XRet _ _ _ _ _ E1), (xbind_XRet _ _ _ _ _ E2).
  assert (E4 : exists xs3, get_security_group name xs2 = XRet g xs3
                           /\ groups xs3 = groups xs1
                           /\ xtrace xs3 = xtrace xs2 ++ [XDescribeGroups [name]]).
  { unfold get_security_group; rewrite (xbind_XRet _ _ _ _ _ E3); eexists; eauto. }
  destruct E4 as [xs3 [E4 [G4 T4]]].
  rewrite (xbind_XRet _ _ _ _ _ E4).
  do 2 eexists; split; [reflexivity|split; [exact E1|split]].
  - rewrite G4; exact G1.
  - rewrite T4, T2, <- app_assoc; reflexivity.
Qed.

(** ** [bucket_exists], [get_bucket_files], [show_bucket_files] *)

Lemma get_bucket_files_run bucketname xs :
  exists xs' ev, xtrace xs' = xtrace xs /\ groups xs' = groups xs
    /\ cloud (base xs') = cloud (base xs)
    /\ trace (base xs') = trace (base xs) ++ ev /\ Forall quiet ev
    /\ get_bucket_files bucketname xs
       = match lookup_bucket bucketname (buckets (cloud (base xs))) with
         | None => XRet None xs'
         | Some _ => XExc (PyExc (NameError "bucket_name")) xs'
         end.
Proof.
  destruct (get_bucket_quiet quiet (fun e H => H) bucketname (base xs)) as [ev [T F]].
  unfold get_bucket_files.
  destruct (lookup_bucket bucketname (buckets (cloud (base xs)))) as [ks|] eqn:Hb.
  - destruct (get_bucket_spec _ _ _ Hb) as [s1 [E1 C1]].
    rewrite E1 in T; simpl in T.
    assert (Ht : try_all (b <~ lift (get_bucket bucketname) ;; xret (Some b)) (xret None) xs
                 = XRet (Some bucketname) (mkXState s1 (groups xs) (xtrace xs)))
      by (unfold try_all; rewrite (xbind_XRet _ _ _ _ _ (lift_Ret _ _ _ _ E1)); reflexivity).
    rewrite (xbind_XRet _ _ _ _ _ Ht).
    exists (mkXState s1 (groups xs) (xtrace xs)), ev; cbn; repeat split; auto.
  - destruct (get_bucket_missing _ _ Hb) as [s1 [E1 C1]].
    rewrite E1 in T; simpl in T.
    assert (Ht : try_all (b <~ lift (get_bucket bucketname) ;; xret (Some b)) (xret None) xs
                 = XRet None (mkXState s1 (groups xs) (xtrace xs)))
      by (unfold try_all; rewrite (xbind_XExc _ _ _ _ _ (lift_Exc _ _ _ _ E1)); reflexivity).
    rewrite (xbind_XRet _ _ _ _ _ Ht).
    exists (mkXState s1 (groups xs) (xtrace xs)), ev; cbn; repeat split; auto.
Qed.

(** [EasyS3.get_bucket_files] never returns a list of files: it returns
    [None] when the bucket does not exist (the bare [except] swallows
    [S3ResponseError]) and otherwise raises [NameError] for [bucket_name],
    before [bucket_exists] is called; it never changes the cloud. *)
Theorem get_bucket_files_never_lists bucketname xs :
  exists xs', xtrace xs' = xtrace xs /\ cloud (base xs') = cloud (base xs)
    /\ get_bucket_files bucketname xs
       = match lookup_bucket bucketname (buckets (cloud (base xs))) with
         | None => XRet None xs'
         | Some _ => XExc (PyExc (NameError "bucket_name")) xs'
         end.
Proof.
  destruct (get_bucket_files_run bucketname xs) as [xs' [ev [X [_ [C [_ [_ E]]]]]]].
  eauto.
Qed.


(** ** Witnesses of the properties above *)

Lemma remove_image_missing_bucket_witness :
  hd_error (images_with_id "ami-1a2b3c4d" (cloud (demo_state no_bucket_cloud))) = Some demo_image /\
  lookup_bucket (bucket_name demo_image) (buckets (cloud (demo_state no_bucket_cloud))) = None /\
  (exists s' ev, remove_image_files 1 "ami-1a2b3c4d" false (demo_state no_bucket_cloud)
                 = Exc (S3ResponseError (bucket_name demo_image)) s'
              /\ cloud s' = cloud (demo_state no_bucket_cloud)
              /\ trace s' = trace (demo_state no_bucket_cloud) ++ ev /\ Forall not_mutating ev) /\
  (exists s' ev, remove_image 1 "ami-1a2b3c4d" false (demo_state no_bucket_cloud)
                 = Exc (S3ResponseError (bucket_name demo_image)) s'
              /\ cloud s' = cloud (demo_state no_bucket_cloud)
              /\ trace s' = trace (demo_state no_bucket_cloud) ++ ev /\ Forall not_mutating ev).
Proof.
  split; [reflexivity|split; [reflexivity|]].
  apply (remove_image_missing_bucket 0 "ami-1a2b3c4d" demo_image false); reflexivity.
Defined.

Lemma remove_image_files_dry_run_prints_witness :
  hd_error (images_with_id "ami-1a2b3c4d" (cloud (demo_state demo_cloud))) = Some demo_image /\
  lookup_bucket (bucket_name demo_image) (buckets (cloud (demo_state demo_cloud)))
    = Some ["img.part.0"; "img.part.1"; "other"] /\
  let files := map (mkObj (bucket_name demo_image))
                   (filter (prefix (image_prefix demo_image)) ["img.part.0"; "img.part.1"; "other"]) in
  exists s' ev1 ev2, remove_image_files 1 "ami-1a2b3c4d" true (demo_state demo_cloud) = Ret tt s'
    /\ cloud s' = cloud (demo_state demo_cloud)
    /\ trace s' = trace (demo_state demo_cloud) ++ ev1 ++ map (fun f => EPrint (key_repr f)) files
                  ++ ev2 ++ (if Nat.eqb (List.length files) 0 then []
                            else [ELog Info "Not all files deleted, would recurse...exiting"])
    /\ Forall quiet (ev1 ++ ev2).
Proof.
  split; [reflexivity|split; [reflexivity|]].
  apply (remove_image_files_dry_run_prints 0 "ami-1a2b3c4d" demo_image
           ["img.part.0"; "img.part.1"; "other"]); reflexivity.
Defined.

Lemma remove_image_files_clean_store_witness :
  hd_error (images_with_id "ami-1a2b3c4d" (cloud (demo_state demo_cloud))) = Some demo_image /\
  lookup_bucket (bucket_name demo_image) (buckets (cloud (demo_state demo_cloud)))
    = Some ["img.part.0"; "img.part.1"; "other"] /\
  exists s' ev, remove_image_files 1 "ami-1a2b3c4d" false (demo_state demo_cloud) = Ret tt s'
    /\ images (cloud s') = images (cloud (demo_state demo_cloud))
    /\ (forall b, lookup_bucket b (buckets (cloud s'))
                  = if String.eqb (bucket_name demo_image) b
                    then Some (filter (fun k => negb (prefix (image_prefix demo_image) k))
                                      ["img.part.0"; "img.part.1"; "other"])
                    else lookup_bucket b (buckets (cloud (demo_state demo_cloud))))
    /\ trace s' = trace (demo_state demo_cloud) ++ ev
    /\ count_deletes ev = List.length (filter (prefix (image_prefix demo_image))
                                             ["img.part.0"; "img.part.1"; "other"])
    /\ Forall no_deregister ev.
Proof.
  split; [reflexivity|split; [reflexivity|]].
  apply (remove_image_files_clean_store 0 "ami-1a2b3c4d" demo_image
           ["img.part.0"; "img.part.1"; "other"]); [reflexivity|reflexivity|].
  intros k _ _; reflexivity.
Defined.

Lemma remove_image_clean_store_witness :
  hd_error (images_with_id "ami-1a2b3c4d" (cloud (demo_state demo_cloud))) = Some demo_image /\
  lookup_bucket (bucket_name demo_image) (buckets (cloud (demo_state demo_cloud)))
    = Some ["img.part.0"; "img.part.1"; "other"] /\
  exists s' ev, remove_image 1 "ami-1a2b3c4d" false (demo_state demo_cloud) = Ret tt s'
    /\ images (cloud s') = filter (fun i => negb (String.eqb (id i) "ami-1a2b3c4d"))
                                  (images (cloud (demo_state demo_cloud)))
    /\ (forall b, lookup_bucket b (buckets (cloud s'))
                  = if String.eqb (bucket_name demo_image) b
                    then Some (filter (fun k => negb (prefix (image_prefix demo_image) k))
                                      ["img.part.0"; "img.part.1"; "other"])
                    else lookup_bucket b (buckets (cloud (demo_state demo_cloud))))
    /\ trace s' = trace (demo_state demo_cloud) ++ ev ++ [EDeregister "ami-1a2b3c4d"]
    /\ count_deletes ev = List.length (filter (prefix (image_prefix demo_image))
                                             ["img.part.0"; "img.part.1"; "other"])
    /\ Forall no_deregister ev.
Proof.
  split; [reflexivity|split; [reflexivity|]].
  apply (remove_image_clean_store 0 "ami-1a2b3c4d" demo_image
           ["img.part.0"; "img.part.1"; "other"]); [reflexivity|reflexivity|].
  intros k _ _; reflexivity.
Defined.

Lemma get_registered_image_stale_cache_witness :
  _images (cached_state demo_cloud) = None /\
  find (fun i => String.eqb (id i) "ami-1a2b3c4d")
       (filter (image_matches (ByOwners ["self"]) (account (cloud (cached_state demo_cloud))))
               (images (cloud (cached_state demo_cloud)))) = Some demo_image /\
  exists s', lookup_deregister_lookup "ami-1a2b3c4d" (cached_state demo_cloud)
             = Ret (if cache (cached_state demo_cloud) then Some demo_image else None) s'
          /\ images_with_id "ami-1a2b3c4d" (cloud s') = [].
Proof.
  split; [reflexivity|split; [reflexivity|]].
  apply (get_registered_image_stale_cache "ami-1a2b3c4d" demo_image (cached_state demo_cloud));
    reflexivity.
Defined.

Lemma get_or_create_group_existing_witness :
  group_exists (groups (demo_xstate [default_group])) "default" = true /\
  exists g xs', get_or_create_group "default" "ignored" true false (demo_xstate [default_group])
                = XRet (Some g) xs'
    /\ find (fun g => String.eqb (sg_name g) "default") (groups (demo_xstate [default_group]))
       = Some g
    /\ groups xs' = groups (demo_xstate [default_group])
    /\ xtrace xs' = xtrace (demo_xstate [default_group]) ++ [XDescribeGroups ["default"]].
Proof.
  split; [reflexivity|].
  apply (get_or_create_group_existing "default" "ignored" true false); reflexivity.
Defined.

Lemma get_or_create_group_creates_witness :
  group_exists (groups (demo_xstate [default_group])) "mycluster" = false /\
  let g := mkGroup "mycluster" "cluster group"
             ((if true then [RCidr "tcp" 22 22 "0.0.0.0/0"] else [])
              ++ (if true then [RGroup "mycluster"] else [])) in
  exists xs', get_or_create_group "mycluster" "cluster group" true true (demo_xstate [default_group])
              = XRet (Some g) xs'
    /\ groups xs' = groups (demo_xstate [default_group]) ++ [g]
    /\ xtrace xs' = xtrace (demo_xstate [default_group])
                    ++ [XDescribeGroups ["mycluster"]; XCreateGroup "mycluster" "cluster group"]
                    ++ (if true then [XAuthorize "mycluster" (RCidr "tcp" 22 22 "0.0.0.0/0")]
                        else [])
                    ++ (if true then [XAuthorize "mycluster" (RGroup "mycluster")] else []).
Proof.
  split; [reflexivity|].
  apply (get_or_create_group_creates "mycluster" "cluster group" true true); [reflexivity|].
  discriminate.
Defined.

Lemma get_or_create_group_empty_name_witness :
  group_exists (groups (demo_xstate [default_group])) "" = false /\
  exists xs', get_or_create_group "" "unused" true true (demo_xstate [default_group]) = XRet None xs'
    /\ groups xs' = groups (demo_xstate [default_group])
    /\ xtrace xs' = xtrace (demo_xstate [default_group]) ++ [XDescribeGroups [""]].
Proof.
  split; [reflexivity|].
  apply (get_or_create_group_empty_name "unused" true true); reflexivity.
Defined.

Lemma get_or_create_group_idempotent_witness :
  group_exists (groups (demo_xstate [default_group])) "mycluster" = false /\
  let g := mkGroup "mycluster" "cluster group"
             ((if true then [RCidr "tcp" 22 22 "0.0.0.0/0"] else [])
              ++ (if false then [RGroup "mycluster"] else [])) in
  exists xs1 xs', create_then_get "mycluster" "cluster group" true false (demo_xstate [default_group])
                  = XRet (Some g, Some g, g) xs'
    /\ get_or_create_group "mycluster" "cluster group" true false (demo_xstate [default_group])
       = XRet (Some g) xs1
    /\ groups xs' = groups (demo_xstate [default_group]) ++ [g]
    /\ xtrace xs' = xtrace xs1 ++ [XDescribeGroups ["mycluster"]; XDescribeGroups ["mycluster"]].
Proof.
  split; [reflexivity|].
  apply (get_or_create_group_idempotent "mycluster" "cluster group" true false); [reflexivity|].
  discriminate.
Defined.

Lemma get_image_name_matches_prefix_witness :
  location demo_image = ("mybucket" ++ "/" ++ "img.manifest.xml")%string /\
  contains "/" "mybucket" = false /\ contains "/" "img.manifest.xml" = false /\
  get_image_name demo_image = Some (image_prefix demo_image) /\
  get_image_name demo_image = Some "img".
Proof.
  split; [reflexivity|split; [reflexivity|split; [reflexivity|split]]].
  - apply (proj2 (get_image_name_matches_prefix demo_image) "mybucket" "img.manifest.xml");
      reflexivity.
  - vm_compute; reflexivity.
Defined.

Lemma remove_image_deletes_before_deregister_witness :
  exists ev img s0 s1 s2 ev1 ev2,
    trace (state_of (remove_image 1 "ami-1a2b3c4d" false (demo_state demo_cloud)))
      = trace (demo_state demo_cloud) ++ ev
    /\ In (EDeregister "ami-1a2b3c4d") ev
    /\ get_image "ami-1a2b3c4d" (demo_state demo_cloud) = Ret (Some img) s0
    /\ remove_image_files 1 "ami-1a2b3c4d" false s1 = Ret tt s2
    /\ ev = ev1 ++ ev2 /\ Forall no_deregister ev1 /\ Forall no_delete ev2.
Proof.
  destruct (remove_image_deletes_before_deregister 1 "ami-1a2b3c4d" (demo_state demo_cloud))
    as [ev [T [_ H]]].
  assert (Hin : In (EDeregister "ami-1a2b3c4d") ev).
  { assert (Hev : ev = trace (state_of (remove_image 1 "ami-1a2b3c4d" false
                                                     (demo_state demo_cloud))))
      by (rewrite T; reflexivity).
    rewrite Hev; vm_compute; repeat (first [left; reflexivity | right]). }
  destruct (H _ Hin) as [img [s0 [s1 [s2 [ev1 [ev2 [G [_ [R [_ [E [F1 F2]]]]]]]]]]]].
  exists ev, img, s0, s1, s2, ev1, ev2; repeat split; assumption.
Defined.
